(** * setup-a-ci: the request pipeline of [app.js]

    A shallow embedding of the Express application defined in [app.js]:
    the middleware stack in registration order, the route handlers, the
    not-found and error middleware, and the process-level fault handlers.

    What [app.js] itself contains is translated line by line.  What it calls
    (Express's dispatcher, response and final handler, [express.json],
    [helmet], the winston logger and its exception handlers, Node's
    [process], [http.Server] and [url.parse]) is library code outside the
    repository; each such piece is a clearly marked definition or a field of
    the [Runtime] record below. *)

From Stdlib Require Import ZArith String Ascii List Bool Lia.
From stdpp Require Import base option list strings pretty gmap.
Import ListNotations.

Local Open Scope string_scope.

(** ** JavaScript values that occur in [app.js] *)

Inductive JsVal :=
  | JsUndefined
  | JsNumber (n : Z)
  | JsString (s : string).

(** [v === undefined ? undefined : v] for an optional string property. *)
Definition js_of_opt (o : option string) : JsVal :=
  match o with
  | Some s => JsString s
  | None => JsUndefined
  end.

(** [a || d] where [a] is a number or [undefined]: JavaScript takes [d]
    whenever [a] is falsy, that is [undefined] or [0]. *)
Definition js_or_num (a : option Z) (d : Z) : Z :=
  match a with
  | Some n => if Z.eqb n 0 then d else n
  | None => d
  end.

(** [a || d] where [a] is a string or [undefined]: the empty string is
    falsy. *)
Definition js_or_str (a : option string) (d : string) : string :=
  match a with
  | Some s => if String.eqb s EmptyString then d else s
  | None => d
  end.

(** JSON text is represented by the value it denotes. *)
Inductive Json :=
  | JNum (n : Z)
  | JStr (s : string).

(** [JSON.stringify] on an object literal: a property whose value is
    [undefined] is left out, the others keep their order. *)
Fixpoint JSON_stringify (o : list (string * JsVal)) : list (string * Json) :=
  match o with
  | [] => []
  | (k, JsUndefined) :: o' => JSON_stringify o'
  | (k, JsNumber n) :: o' => (k, JNum n) :: JSON_stringify o'
  | (k, JsString s) :: o' => (k, JStr s) :: JSON_stringify o'
  end.

(** The field names of a JSON object, in order. *)
Definition fields (o : list (string * Json)) : list string := map fst o.

(** Lookup of a field in a JSON object. *)
Fixpoint field (k : string) (o : list (string * Json)) : option Json :=
  match o with
  | [] => None
  | (k', v) :: o' => if String.eqb k k' then Some v else field k o'
  end.

(** ** Errors travelling through [next(err)] *)

(** An error object as the error middleware reads it: [err.message],
    [err.status] and [err.stack].  [status] and [stack] may be absent. *)
Record JsError := {
  err_message : string;
  err_status : option Z;
  err_stack : option string
}.

(** ** Log records handed to the winston logger *)

Inductive Level := debug | info | warn | error.

(** An argument of a logger call after the message: a metadata object, a
    plain value, a promise, or an error object. *)
Inductive LogArg :=
  | ArgObject (o : list (string * JsVal))
  | ArgValue (v : JsVal)
  | ArgPromise
  | ArgError (e : JsError).

(** One call of the logger: the level of the method called, the message, and
    the further arguments as passed. *)
Record LogRecord := {
  level : Level;
  msg : string;
  args : list LogArg
}.

(** The metadata object of a call that passes exactly one. *)
Definition meta (r : LogRecord) : list (string * JsVal) :=
  match args r with
  | [ArgObject o] => o
  | _ => []
  end.

(** Lookup of an attribute of a log record. *)
Fixpoint attr (k : string) (m : list (string * JsVal)) : JsVal :=
  match m with
  | [] => JsUndefined
  | (k', v) :: m' => if String.eqb k k' then v else attr k m'
  end.

(** ** Requests and responses

    A response records the status line, the headers and the body that go
    out, and the number of terminal writes.  The headers that describe the
    entity ([Content-Length], [ETag]) are not recorded when they are set,
    and the body of a [HEAD] response is recorded although Node does not
    transmit it. *)

(** What the body parsers leave in [req.body]. *)
Inductive Body :=
  | NoBody
  | JsonBody (v : list (string * Json))
  | FormBody (kv : list (string * string)).

Record Request := {
  req_method : string;
  req_originalUrl : string;
  req_ip : string;
  req_headers : list (string * string);
  req_raw : option string;
  req_body : Body
}.

(** The body of a response: the text handed to [res.send], the JSON text of
    [res.json], nothing at all (a response that may not carry a body), or
    the HTML page of Express's final handler for a status and the error that
    was pending, if any. *)
Inductive Payload :=
  | Text (s : string)
  | JsonText (o : list (string * Json))
  | Empty
  | FinalPage (code : Z) (pending : option JsError).

Record Response := {
  res_statusCode : Z;
  res_headers : gmap string string;
  res_body : option Payload;
  res_writes : nat
}.

(** A response as Express creates it: status 200, nothing written. *)
Definition fresh_response : Response :=
  {| res_statusCode := 200; res_headers := ∅; res_body := None; res_writes := 0 |}.

(** ** The process: log, clock, listener *)

Record World := {
  (** the calls made on the logger so far, oldest first *)
  log : list LogRecord;
  (** the monotonic clock, and its reading when the process started *)
  clock : Z;
  boot : Z;
  (** the connections the listener still holds open *)
  connections : nat;
  (** the callbacks passed to [server.close] and not yet run; each of them
      is a call of [process.exit], kept as its exit code *)
  on_close : list Z;
  (** the exits that winston's exception and rejection handlers have armed:
      each is a call of [process.exit] that runs when their transports have
      finished, at most 3 s after the fault; kept as its exit code *)
  armed : list Z;
  (** the code the process exited with, once it has *)
  exit_code : option Z
}.

(** The outcome of [JSON.parse]. *)
Inductive Parse :=
  | Parsed (v : list (string * Json))
  | SyntaxError (message stack : string).

(** Everything [app.js] obtains from its environment and its libraries. *)
Record Runtime := {
  (** [process.env.NODE_ENV] and [process.env.PORT] *)
  NODE_ENV : option string;
  PORT : option string;
  (** the winston logger: given the records already handed to it and a new
      record, either returns ([None]) or throws *)
  logger_sink : list LogRecord -> LogRecord -> option JsError;
  (** [JSON.parse] and the form decoder behind [express.urlencoded] *)
  JSON_parse : string -> Parse;
  qs_parse : string -> list (string * string);
  (** the headers [helmet()] sets, by lower-case name *)
  helmet_headers : gmap string string;
  (** a content type with its character set stated as UTF-8, as [res.send]
      rewrites one that was set before *)
  with_charset : string -> string;
  (** the path that Node's [url.parse] finds in a request target; Express
      asks it for every target that is not a plain path with an optional
      query string *)
  url_parse : string -> string;
  (** the cache validation of [res.send] on a conditional request: whether
      the validators in the request headers match the entity about to be
      sent (its [ETag]), so that the client's copy is still fresh *)
  still_fresh : list (string * string) -> Payload -> bool;
  (** the frames V8 appends to the stack of an error created in the
      not-found middleware *)
  stack_frames : string
}.

(** ** Calls that may throw: a state and exception monad *)

Inductive Outcome (A : Type) :=
  | Returned (a : A)
  | Thrown (e : JsError).
Arguments Returned {A} a.
Arguments Thrown {A} e.

Definition M (S A : Type) : Type := S -> Outcome A * S.

Definition ret {S A} (a : A) : M S A := fun s => (Returned a, s).

Definition bind {S A B} (m : M S A) (k : A -> M S B) : M S B :=
  fun s =>
    match m s with
    | (Returned a, s') => k a s'
    | (Thrown e, s') => (Thrown e, s')
    end.

Declare Scope js_scope.
Delimit Scope js_scope with js.
Notation "'let*' x := m 'in' k" := (bind m (fun x => k))
  (at level 10, x name, m at level 100, k at level 200) : js_scope.
Notation "m ;; k" := (bind m (fun _ => k))
  (at level 100, k at level 200, right associativity) : js_scope.

(** ** Strings: the few operations of URL handling *)

Definition lower_ascii (c : ascii) : ascii :=
  let n := nat_of_ascii c in
  if Nat.leb 65 n && Nat.leb n 90 then ascii_of_nat (n + 32) else c.

Fixpoint to_lower (s : string) : string :=
  match s with
  | EmptyString => EmptyString
  | String c r => String (lower_ascii c) (to_lower r)
  end.

(** Everything before the first [?]. *)
Fixpoint before_query (url : string) : string :=
  match url with
  | EmptyString => EmptyString
  | String c r => if Ascii.eqb c "?" then EmptyString else String c (before_query r)
  end.

(** The characters that a plain request target does not contain: tab, line
    feed, form feed, carriage return, space, [#] and the no-break space. *)
Definition beyond_plain (c : ascii) : bool :=
  existsb (Nat.eqb (nat_of_ascii c)) [9; 10; 12; 13; 32; 35; 160]%nat.

Fixpoint plain (s : string) : bool :=
  match s with
  | EmptyString => true
  | String c r => negb (beyond_plain c) && plain r
  end.

Fixpoint strip_prefix (p s : string) : option string :=
  match p, s with
  | EmptyString, _ => Some s
  | String a p', String b s' => if Ascii.eqb a b then strip_prefix p' s' else None
  | String _ _, EmptyString => None
  end.

(** Drops one trailing slash, if there is one. *)
Fixpoint trim_slash (s : string) : string :=
  match s with
  | EmptyString => EmptyString
  | String c EmptyString => if Ascii.eqb c "/" then EmptyString else s
  | String c r => String c (trim_slash r)
  end.

(** Header lookup in a request; Node stores incoming header names in lower
    case and [req.get] lower-cases the name it is asked for. *)
Fixpoint header (k : string) (h : list (string * string)) : option string :=
  match h with
  | [] => None
  | (k', v) :: h' => if String.eqb k k' then Some v else header k h'
  end.

Definition req_get (req : Request) (name : string) : option string :=
  header (to_lower name) (req_headers req).

(** The media type of a [Content-Type] value: the part before any [;]
    parameter, in lower case. *)
Fixpoint before_semicolon (s : string) : string :=
  match s with
  | EmptyString => EmptyString
  | String c r => if Ascii.eqb c ";" then EmptyString else String c (before_semicolon r)
  end.

Definition media_type (req : Request) : option string :=
  match req_get req "Content-Type" with
  | Some v => Some (to_lower (before_semicolon v))
  | None => None
  end.

(** The path of a request target, as Express's router reads it.  A target
    that starts with [/] and is plain from there on is cut at its first [?];
    every other target (one with a fragment, or in absolute form) is handed
    to [url.parse]. *)
Definition pathname (rt : Runtime) (url : string) : string :=
  match url with
  | String c r =>
      if Ascii.eqb c "/" && plain r then before_query url else url_parse rt url
  | EmptyString => url_parse rt url
  end.

(** ** One request in flight *)

Record Exchange := {
  request : Request;
  response : Response;
  world : World
}.

Definition with_response (f : Response -> Response) (x : Exchange) : Exchange :=
  {| request := request x; response := f (response x); world := world x |}.

Definition with_body (b : Body) (x : Exchange) : Exchange :=
  {| request :=
       {| req_method := req_method (request x);
          req_originalUrl := req_originalUrl (request x);
          req_ip := req_ip (request x);
          req_headers := req_headers (request x);
          req_raw := req_raw (request x);
          req_body := b |};
     response := response x;
     world := world x |}.

(** Runs a computation on the process state inside an exchange. *)
Definition in_world {A} (m : M World A) : M Exchange A :=
  fun x =>
    match m (world x) with
    | (o, w') => (o, {| request := request x; response := response x; world := w' |})
    end.

Definition get_req : M Exchange Request := fun x => (Returned (request x), x).

(** ** The response object *)

(** [res.headersSent] *)
Definition headersSent (r : Response) : bool := Nat.ltb 0 (res_writes r).

(** The error Node raises when a header is set after the response went out. *)
Definition ERR_HTTP_HEADERS_SENT : JsError :=
  {| err_message := "Cannot set headers after they are sent to the client";
     err_status := None;
     err_stack := Some "Error [ERR_HTTP_HEADERS_SENT]: Cannot set headers after they are sent to the client" |}.

(** [res.status(code)] *)
Definition res_status (code : Z) : M Exchange unit :=
  fun x =>
    (Returned tt,
     with_response (fun r =>
       {| res_statusCode := code; res_headers := res_headers r;
          res_body := res_body r; res_writes := res_writes r |}) x).

(** [res.set(name, value)] *)
Definition res_set (name value : string) : M Exchange unit :=
  fun x =>
    if headersSent (response x) then (Thrown ERR_HTTP_HEADERS_SENT, x)
    else
      (Returned tt,
       with_response (fun r =>
         {| res_statusCode := res_statusCode r;
            res_headers := <[name := value]> (res_headers r);
            res_body := res_body r; res_writes := res_writes r |}) x).

(** The status codes Node writes: 100 to 999. *)
Definition valid_status (code : Z) : bool :=
  (Z.leb 100 code && Z.leb code 999)%Z.

(** The error Node raises when asked to write another status code. *)
Definition ERR_HTTP_INVALID_STATUS_CODE (code : Z) : JsError :=
  {| err_message := "Invalid status code: " +:+ pretty code;
     err_status := None;
     err_stack := Some ("RangeError [ERR_HTTP_INVALID_STATUS_CODE]: Invalid status code: "
                        +:+ pretty code) |}.

(** A header value that is there and is not the empty string. *)
Definition truthy (v : option string) : bool :=
  match v with
  | Some s => negb (String.eqb s EmptyString)
  | None => false
  end.

(** The request carries a cache validator: [If-None-Match] or
    [If-Modified-Since]. *)
Definition conditional (req : Request) : bool :=
  truthy (header "if-none-match" (req_headers req))
  || truthy (header "if-modified-since" (req_headers req)).

(** [req.fresh], for the status [code] and the entity [p] about to be sent:
    only a [GET] or [HEAD] request that carries a validator can match, and
    only for a 2xx or 304 status. *)
Definition req_fresh (rt : Runtime) (req : Request) (code : Z) (p : Payload) : bool :=
  (String.eqb (req_method req) "GET" || String.eqb (req_method req) "HEAD")
  && ((Z.leb 200 code && Z.ltb code 300) || Z.eqb code 304)
  && conditional req
  && still_fresh rt (req_headers req) p.

(** The headers once [res.send] has seen to the content type: one that is
    there already gets its character set stated, otherwise [ctype] is set. *)
Definition with_type (rt : Runtime) (ctype : string) (h : gmap string string) :
    gmap string string :=
  match h !! "content-type" with
  | Some t => <["content-type" := with_charset rt t]> h
  | None => <["content-type" := ctype]> h
  end.

(** The status codes that go out with a body: none goes out with a 1xx
    status, nor with 204, 205 and 304. *)
Definition carries_body (code : Z) : bool :=
  negb (Z.ltb code 200 || Z.eqb code 204 || Z.eqb code 205 || Z.eqb code 304).

(** The terminal write behind [res.send] and [res.json] (Express 4).  The
    content type is seen to.  When the client's
    copy is fresh the status becomes 304.  A 204 or 304 response loses its
    entity headers, a 205 response its transfer encoding.  Node then writes
    the status line, and raises when the code is not one it writes: nothing
    has gone out then.  Otherwise the payload goes out, when the status is
    one that carries a body.  A second write raises. *)
Definition res_end (rt : Runtime) (ctype : string) (p : Payload) : M Exchange unit :=
  fun x =>
    let r := response x in
    if headersSent r then (Thrown ERR_HTTP_HEADERS_SENT, x)
    else
      let typed := with_type rt ctype (res_headers r) in
      let code :=
        if req_fresh rt (request x) (res_statusCode r) p then 304%Z
        else res_statusCode r in
      let bare := Z.eqb code 204 || Z.eqb code 304 in
      let hs :=
        if bare then
          delete "transfer-encoding" (delete "content-length" (delete "content-type" typed))
        else if Z.eqb code 205 then delete "transfer-encoding" typed
        else typed in
      if valid_status code then
        (Returned tt,
         with_response (fun _ =>
           {| res_statusCode := code;
              res_headers := hs;
              res_body := Some (if carries_body code then p else Empty);
              res_writes := S (res_writes r) |}) x)
      else
        (Thrown (ERR_HTTP_INVALID_STATUS_CODE code),
         with_response (fun _ =>
           {| res_statusCode := code;
              res_headers := hs;
              res_body := res_body r;
              res_writes := res_writes r |}) x).

(** [res.send(text)] *)
Definition res_send (rt : Runtime) (s : string) : M Exchange unit :=
  res_end rt "text/html; charset=utf-8" (Text s).

(** [res.json(obj)] *)
Definition res_json (rt : Runtime) (o : list (string * JsVal)) : M Exchange unit :=
  res_end rt "application/json; charset=utf-8" (JsonText (JSON_stringify o)).

(** The marker that stands for the stack in production: the pancakes glyph
    U+1F95E, as the four bytes of its UTF-8 encoding. *)
Definition redaction_marker : string :=
  String (ascii_of_nat 240) (String (ascii_of_nat 159)
    (String (ascii_of_nat 165) (String (ascii_of_nat 158) EmptyString))).

(** ** What a middleware tells the dispatcher *)

Inductive Signal :=
  | Next                   (* next() *)
  | NextErr (e : JsError)  (* next(err) *)
  | Stop.                  (* returned without calling next *)

Definition Middleware := M Exchange Signal.
Definition ErrorMiddleware := JsError -> M Exchange Signal.
Definition Handler := M Exchange unit.

Record RouteEntry := {
  route_method : string;
  route_path : string;
  route_handler : Handler
}.

Inductive Layer :=
  | Use (mw : Middleware)                               (* app.use(fn) *)
  | UseRouter (prefix : string) (routes : list RouteEntry) (* app.use(prefix, router) *)
  | Route (r : RouteEntry)                              (* app.get(path, fn) *)
  | UseError (h : ErrorMiddleware).                     (* app.use((err, req, res, next) => ...) *)

(** What is left to do after a layer has run. *)
Inductive Flow :=
  | Continue (pending : option JsError)
  | Done.

Local Open Scope js_scope.

Section App.

Variable rt : Runtime.

(** *** Process and logger *)

(** [process.env.NODE_ENV === 'production'] *)
Definition is_production : bool :=
  match NODE_ENV rt with
  | Some m => String.eqb m "production"
  | None => false
  end.

(** [const port = process.env.PORT || 3000], as it prints in a template. *)
Definition port : string := js_or_str (PORT rt) "3000".

(** A call of [logger.log]: the record is handed to winston, which returns
    or throws. *)
Definition logger_log (r : LogRecord) : M World unit :=
  fun w =>
    let w' := {| log := log w ++ [r]; clock := clock w; boot := boot w;
                 connections := connections w; on_close := on_close w;
                 armed := armed w; exit_code := exit_code w |} in
    match logger_sink rt (log w) r with
    | None => (Returned tt, w')
    | Some e => (Thrown e, w')
    end.

Definition logger_info (m : string) (a : list LogArg) : M World unit :=
  logger_log {| level := info; msg := m; args := a |}.
Definition logger_warn (m : string) (a : list LogArg) : M World unit :=
  logger_log {| level := warn; msg := m; args := a |}.
Definition logger_error (m : string) (a : list LogArg) : M World unit :=
  logger_log {| level := error; msg := m; args := a |}.

(** Modelled from the spec: [process.uptime()] belongs to the Node runtime;
    the spec describes it as a monotonic process-start counter, here the
    reading of the clock minus its reading at start. *)
Definition process_uptime : M World Z :=
  fun w => (Returned (clock w - boot w)%Z, w).

(** [new Error(message)]: V8 fills [stack] with the header line and the
    frames of the call site. *)
Definition new_Error (message : string) : JsError :=
  {| err_message := message;
     err_status := None;
     err_stack := Some ("Error: " +:+ message +:+ stack_frames rt) |}.

(** [error.status = code] *)
Definition set_status (e : JsError) (code : Z) : JsError :=
  {| err_message := err_message e; err_status := Some code; err_stack := err_stack e |}.

(** *** The middleware of [app.js], in registration order *)

(** [app.use(helmet())]: sets its headers and calls [next()]. *)
Definition helmet : Middleware :=
  fun x =>
    (Returned Next,
     with_response (fun r =>
       {| res_statusCode := res_statusCode r;
          res_headers := helmet_headers rt ∪ res_headers r;
          res_body := res_body r; res_writes := res_writes r |}) x).

Definition has_type (req : Request) (t : string) : bool :=
  match media_type req with
  | Some m => String.eqb m t
  | None => false
  end.

(** Modelled from the spec: [express.json()] is Express code, not part of
    this repository.  The spec: when the content type is application/json
    the body is parsed as JSON, and malformed JSON is raised as a client
    error with status 400; the parsed value is stored in [req.body]. *)
Definition express_json : Middleware :=
  fun x =>
    match req_raw (request x) with
    | Some raw =>
        if has_type (request x) "application/json" then
          match JSON_parse rt raw with
          | Parsed v => (Returned Next, with_body (JsonBody v) x)
          | SyntaxError m st =>
              (Returned (NextErr {| err_message := m; err_status := Some 400%Z;
                                    err_stack := Some st |}), x)
          end
        else (Returned Next, x)
    | None => (Returned Next, x)
    end.

(** Modelled from the spec: [express.urlencoded({ extended: true })] is
    Express code, not part of this repository.  The spec: a form-encoded
    body is parsed into a key/value mapping; any other body is left alone. *)
Definition express_urlencoded : Middleware :=
  fun x =>
    match req_raw (request x) with
    | Some raw =>
        if has_type (request x) "application/x-www-form-urlencoded" then
          (Returned Next, with_body (FormBody (qs_parse rt raw)) x)
        else (Returned Next, x)
    | None => (Returned Next, x)
    end.

(** The record of the request logging middleware. *)
Definition access_record (req : Request) : LogRecord :=
  {| level := info;
     msg := "Incoming Request: " +:+ req_method req +:+ " " +:+ req_originalUrl req;
     args := [ArgObject [("ip", JsString (req_ip req));
                         ("userAgent", js_of_opt (req_get req "User-Agent"))]] |}.

(** [app.use((req, res, next) => { logger.info(...); next(); })] *)
Definition request_logger : Middleware :=
  let* req := get_req in
  in_world (logger_info
    ("Incoming Request: " +:+ req_method req +:+ " " +:+ req_originalUrl req)
    [ArgObject [("ip", JsString (req_ip req));
                ("userAgent", js_of_opt (req_get req "User-Agent"))]]) ;;
  ret Next.

(** [apiRouter.get('/', ...)] *)
Definition api_root : Handler :=
  res_send rt "Hello from setup-a-ci Node.js app!".

(** [apiRouter.get('/health', ...)] *)
Definition api_health : Handler :=
  in_world (logger_info "Health check requested." []) ;;
  res_status 200 ;;
  let* up := in_world process_uptime in
  res_json rt [("status", JsString "healthy"); ("uptime", JsNumber up)].

(** [apiRouter.get('/data', ...)] *)
Definition api_data : Handler :=
  res_json rt [("message", JsString "This is some protected data!")].

Definition apiRouter : list RouteEntry :=
  [ {| route_method := "GET"; route_path := "/"; route_handler := api_root |};
    {| route_method := "GET"; route_path := "/health"; route_handler := api_health |};
    {| route_method := "GET"; route_path := "/data"; route_handler := api_data |} ].

(** [app.get('/', ...)] *)
Definition root : Handler :=
  res_send rt "Welcome to the Node.js application! Check /api for API endpoints, or /api/health for status.".

(** The 404 middleware. *)
Definition not_found : Middleware :=
  let* req := get_req in
  let error := new_Error ("Not Found - " +:+ req_originalUrl req) in
  let error := set_status error 404 in
  in_world (logger_warn
    ("404 Not Found: " +:+ req_method req +:+ " " +:+ req_originalUrl req) []) ;;
  ret (NextErr error).

(** The record of the general error handling middleware. *)
Definition error_record (err : JsError) (req : Request) : LogRecord :=
  {| level := error;
     msg := "Error: " +:+ err_message err;
     args := [ArgObject [("status", JsNumber (js_or_num (err_status err) 500));
                         ("stack", js_of_opt (err_stack err));
                         ("url", JsString (req_originalUrl req));
                         ("method", JsString (req_method req))]] |}.

(** The general error handling middleware. *)
Definition error_handler : ErrorMiddleware :=
  fun err =>
    let* req := get_req in
    let statusCode := js_or_num (err_status err) 500 in
    res_status statusCode ;;
    res_json rt [("message", JsString (err_message err));
                 ("stack", if is_production then JsString redaction_marker
                           else js_of_opt (err_stack err))] ;;
    in_world (logger_error ("Error: " +:+ err_message err)
      [ArgObject [("status", JsNumber statusCode);
                  ("stack", js_of_opt (err_stack err));
                  ("url", JsString (req_originalUrl req));
                  ("method", JsString (req_method req))]]) ;;
    ret Stop.

(** The stack of [app], as the calls of [app.use] and [app.get] build it. *)
Definition app : list Layer :=
  [ Use helmet;
    Use express_json;
    Use express_urlencoded;
    Use request_logger;
    UseRouter "/api" apiRouter;
    Route {| route_method := "GET"; route_path := "/"; route_handler := root |};
    Use not_found;
    UseError error_handler ].

End App.

(** ** Express's dispatcher

    The part of Express's router that [app.js] relies on: layers run in
    registration order; a layer that throws has its exception forwarded as
    by [next(err)]; while an error is pending only error middleware runs;
    routes are matched on the path of the request target, ignoring case and
    one trailing slash; [HEAD] is served by the [GET] route; what no layer
    has answered is answered by the final handler. *)

Definition run_middleware (mw : Middleware) (x : Exchange) : Flow * Exchange :=
  match mw x with
  | (Returned Next, x') => (Continue None, x')
  | (Returned (NextErr e), x') => (Continue (Some e), x')
  | (Returned Stop, x') => (Done, x')
  | (Thrown e, x') => (Continue (Some e), x')
  end.

Definition run_handler (h : Handler) (x : Exchange) : Flow * Exchange :=
  match h x with
  | (Returned _, x') => (Done, x')
  | (Thrown e, x') => (Continue (Some e), x')
  end.

Definition handles_method (route_m req_m : string) : bool :=
  String.eqb route_m req_m || (String.eqb req_m "HEAD" && String.eqb route_m "GET").

Definition path_matches (pattern path : string) : bool :=
  String.eqb (trim_slash (to_lower path)) (trim_slash (to_lower pattern)).

(** The path a router mounted at [prefix] sees: the rest of the path, which
    must start at a segment boundary; an empty rest reads [/], and the slash
    that ends the prefix is consumed when another slash follows it. *)
Definition mounted_path (prefix path : string) : option string :=
  match strip_prefix (to_lower prefix) (to_lower path) with
  | Some EmptyString => Some "/"
  | Some (String c r) =>
      if Ascii.eqb c "/" then
        match r with
        | EmptyString => Some "/"
        | String c' _ => if Ascii.eqb c' "/" then Some r else Some (String c r)
        end
      else None
  | None => None
  end.

(** The methods a route answers, for an [Allow] header. *)
Definition route_options (r : RouteEntry) : list string :=
  if String.eqb (route_method r) "GET" then ["GET"; "HEAD"] else [route_method r].

Fixpoint append_methods (options ms : list string) : list string :=
  match ms with
  | [] => options
  | m :: ms' =>
      if existsb (String.eqb m) options then append_methods options ms'
      else append_methods (options ++ [m]) ms'
  end.

Fixpoint join_comma (l : list string) : string :=
  match l with
  | [] => EmptyString
  | [m] => m
  | m :: l' => m +:+ "," +:+ join_comma l'
  end.

(** The reply a router gives to [OPTIONS] on the path of one of its routes. *)
Definition sendOptionsResponse (rt : Runtime) (options : list string) : Handler :=
  res_set "allow" (join_comma options) ;;
  res_send rt (join_comma options).

(** A mounted router: the first route whose path and method match handles
    the request.  When none does, control returns to the outer stack, except
    that an [OPTIONS] request on the path of a route is answered with the
    methods of the routes on that path. *)
Fixpoint router_handle (rt : Runtime) (routes : list RouteEntry) (path : string)
    (options : list string) (x : Exchange) : Flow * Exchange :=
  match routes with
  | [] =>
      match options with
      | [] => (Continue None, x)
      | _ :: _ => run_handler (sendOptionsResponse rt options) x
      end
  | r :: routes' =>
      if path_matches (route_path r) path then
        if handles_method (route_method r) (req_method (request x))
        then run_handler (route_handler r) x
        else if String.eqb (req_method (request x)) "OPTIONS"
        then router_handle rt routes' path (append_methods options (route_options r)) x
        else router_handle rt routes' path options x
      else router_handle rt routes' path options x
  end.

(** A status code that names an error: 400 to 599. *)
Definition error_status (code : Z) : bool :=
  (Z.leb 400 code && Z.leb code 599)%Z.

(** The status the final handler picks: 404 when no error is pending;
    otherwise the error's status when that names an error, else the status
    already set on the response when that names an error, else 500. *)
Definition final_status (pending : option JsError) (r : Response) : Z :=
  match pending with
  | None => 404
  | Some e =>
      match err_status e with
      | Some n =>
          if error_status n then n
          else if error_status (res_statusCode r) then res_statusCode r else 500
      | None => if error_status (res_statusCode r) then res_statusCode r else 500
      end
  end%Z.

(** Express's final handler, reached when the stack is exhausted.  It leaves
    a response that has gone out alone.  Otherwise it answers itself, with
    its own page: it drops the headers that describe another entity and sets
    its own content security policy, [X-Content-Type-Options] and content
    type, over whatever was set before.  (It also reads the [statusCode] and
    [headers] properties of the error, which are not part of [JsError]: the
    errors that reach it unanswered in this application are Node's own and
    have neither.) *)
Definition finalhandler (pending : option JsError) (x : Exchange) : Exchange :=
  if headersSent (response x) then x
  else
    with_response (fun r =>
      {| res_statusCode := final_status pending r;
         res_headers :=
           <["content-type" := "text/html; charset=utf-8"]>
             (<["x-content-type-options" := "nosniff"]>
                (<["content-security-policy" := "default-src 'none'"]>
                   (delete "content-range"
                      (delete "content-language"
                         (delete "content-encoding" (res_headers r))))));
         res_body := Some (FinalPage (final_status pending r) pending);
         res_writes := S (res_writes r) |}) x.

Definition run_layer (rt : Runtime) (l : Layer) (pending : option JsError)
    (x : Exchange) : Flow * Exchange :=
  match l, pending with
  | Use mw, None => run_middleware mw x
  | UseError h, Some e => run_middleware (h e) x
  | Route r, None =>
      if path_matches (route_path r) (pathname rt (req_originalUrl (request x)))
         && handles_method (route_method r) (req_method (request x))
      then run_handler (route_handler r) x
      else (Continue None, x)
  | UseRouter prefix routes, None =>
      match mounted_path prefix (pathname rt (req_originalUrl (request x))) with
      | Some inner => router_handle rt routes inner [] x
      | None => (Continue None, x)
      end
  | _, _ => (Continue pending, x)
  end.

Fixpoint handle (rt : Runtime) (stack : list Layer) (pending : option JsError)
    (x : Exchange) : Exchange :=
  match stack with
  | [] => finalhandler pending x
  | l :: stack' =>
      match run_layer rt l pending x with
      | (Continue p, x') => handle rt stack' p x'
      | (Done, x') => x'
      end
  end.

(** One request served by the application, from a fresh response. *)
Definition serve (rt : Runtime) (req : Request) (w : World) : Exchange :=
  handle rt (app rt) None
    {| request := req; response := fresh_response; world := w |}.

(** ** The process around the application *)

Section Process.

Variable rt : Runtime.

(** [process.exit(code)]: the first exit is final. *)
Definition process_exit (code : Z) : M World unit :=
  fun w =>
    (Returned tt,
     match exit_code w with
     | Some _ => w
     | None =>
         {| log := log w; clock := clock w; boot := boot w;
            connections := connections w; on_close := on_close w;
            armed := armed w; exit_code := Some code |}
     end).

(** Runs callbacks that are calls of [process.exit], in order. *)
Definition run_exits (codes : list Z) (w : World) : World :=
  fold_left (fun w' code => snd (process_exit code w')) codes w.

(** The listener emits [close] once no connection is left: the callbacks
    registered by [server.close] run, each of them a [process.exit]. *)
Definition emit_close_if_drained (w : World) : World :=
  match connections w with
  | O =>
      run_exits (on_close w)
        {| log := log w; clock := clock w; boot := boot w;
           connections := connections w; on_close := [];
           armed := armed w; exit_code := exit_code w |}
  | S _ => w
  end.

(** [server.close(() => { process.exit(code); })] *)
Definition server_close (code : Z) : M World unit :=
  fun w =>
    (Returned tt,
     emit_close_if_drained
       {| log := log w; clock := clock w; boot := boot w;
          connections := connections w; on_close := on_close w ++ [code];
          armed := armed w; exit_code := exit_code w |}).

(** The callback of [app.listen]. *)
Definition on_listening : M World unit :=
  logger_info rt
    ("Server is running on port " +:+ port rt +:+ " in "
       +:+ js_or_str (NODE_ENV rt) "development" +:+ " mode.") [].

(** [.on('error', (err) => ...)] on the server; [code] is [err.code]. *)
Definition on_error (code : string) (err : JsError) : M World unit :=
  if String.eqb code "EADDRINUSE" then
    logger_error rt
      ("Port " +:+ port rt +:+ " is already in use. Please stop the other process or choose a different port.") [] ;;
    process_exit 1
  else
    logger_error rt ("Server startup failed: " +:+ err_message err)
      [ArgObject [("stack", js_of_opt (err_stack err))]] ;;
    process_exit 1.

(** [process.on('unhandledRejection', (reason, promise) => ...)] *)
Definition on_unhandledRejection (reason : JsError) : M World unit :=
  logger_error rt "Unhandled Rejection at:"
    [ArgPromise; ArgValue (JsString "reason:"); ArgError reason] ;;
  server_close 1.

(** [process.on('uncaughtException', (error) => ...)] *)
Definition on_uncaughtException (err : JsError) : M World unit :=
  logger_error rt "Uncaught Exception:"
    [ArgValue (JsString (err_message err));
     ArgObject [("stack", js_of_opt (err_stack err))]] ;;
  server_close 1.

(** *** The handlers that the logger installs

    [winston.createLogger] is given [exceptionHandlers] and
    [rejectionHandlers], and [exitOnError] is left at its default: winston
    then listens to [uncaughtException] and [unhandledRejection] itself.
    Its listeners are installed when the logger is created, before those of
    [app.js], and so run first. *)

(** The record winston logs for a fault; of the fields of its info object
    only the error is kept. *)
Definition winston_info (kind : string) (err : JsError) : LogRecord :=
  {| level := error;
     msg := kind +:+ ": " +:+ js_or_str (Some (err_message err)) "(no error message)"
              +:+ String (ascii_of_nat 10) EmptyString
              +:+ js_or_str (err_stack err) "  No stack trace";
     args := [ArgError err] |}.

(** [setTimeout(gracefulExit, 3000)], and [gracefulExit] as the callback of
    the transports: an exit that waits. *)
Definition arm_exit (code : Z) : M World unit :=
  fun w =>
    (Returned tt,
     {| log := log w; clock := clock w; boot := boot w;
        connections := connections w; on_close := on_close w;
        armed := armed w ++ [code]; exit_code := exit_code w |}).

(** winston's listener: it logs the fault and arms [process.exit(1)]. *)
Definition winston_handler (kind : string) (err : JsError) : M World unit :=
  logger_log rt (winston_info kind err) ;;
  arm_exit 1.

(** *** Events *)

(** The transports have finished or the 3 s have passed: the armed exits
    run. *)
Definition graceful_exit (w : World) : World :=
  run_exits (armed w)
    {| log := log w; clock := clock w; boot := boot w;
       connections := connections w; on_close := on_close w;
       armed := []; exit_code := exit_code w |}.

(** An exception that nothing caught: the listeners of [uncaughtException]
    run, winston's first.  When one of them throws, Node gives up and exits
    with code 7. *)
Definition uncaught (err : JsError) (w : World) : World :=
  match (winston_handler "uncaughtException" err ;; on_uncaughtException err) w with
  | (Returned _, w') => w'
  | (Thrown _, w') => snd (process_exit 7 w')
  end.

(** A callback run from the event loop: an exception that escapes it is
    uncaught. *)
Definition callback (m : M World unit) (w : World) : World :=
  match m w with
  | (Returned _, w') => w'
  | (Thrown e, w') => uncaught e w'
  end.

(** The faults that end the process. *)
Inductive Fault :=
  | BindFailure (code : string) (err : JsError)
  | Rejection (reason : JsError)
  | Exception (err : JsError).

(** What a fault sets off. *)
Definition on_fault (f : Fault) (w : World) : World :=
  match f with
  | BindFailure code err => callback (on_error code err) w
  | Rejection reason =>
      callback (winston_handler "unhandledRejection" reason ;;
                on_unhandledRejection reason) w
  | Exception err => uncaught err w
  end.

(** What happens to a running process. *)
Inductive Event :=
  | Listening
  | Tick (d : N)
  | Incoming (req : Request)
  | ConnectionOpened
  | ConnectionClosed
  | Fatal (f : Fault)
  | HandlersFinished.

Definition set_clock (t : Z) (w : World) : World :=
  {| log := log w; clock := t; boot := boot w; connections := connections w;
     on_close := on_close w; armed := armed w; exit_code := exit_code w |}.

Definition set_connections (n : nat) (w : World) : World :=
  {| log := log w; clock := clock w; boot := boot w; connections := n;
     on_close := on_close w; armed := armed w; exit_code := exit_code w |}.

(** One event.  A process that has exited does nothing more; a listener that
    is closing accepts no new connection. *)
Definition step (w : World) (ev : Event) : World :=
  match exit_code w with
  | Some _ => w
  | None =>
      match ev with
      | Listening => callback on_listening w
      | Tick d => set_clock (clock w + Z.of_N d) w
      | Incoming req => world (serve rt req w)
      | ConnectionOpened =>
          match on_close w with
          | [] => set_connections (S (connections w)) w
          | _ :: _ => w
          end
      | ConnectionClosed =>
          emit_close_if_drained (set_connections (pred (connections w)) w)
      | Fatal f => on_fault f w
      | HandlersFinished => graceful_exit w
      end
  end.

Definition run (evs : list Event) (w : World) : World := fold_left step evs w.

(** The process as [node app.js] starts it, the clock reading [t0]. *)
Definition boot_world (t0 : Z) : World :=
  {| log := []; clock := t0; boot := t0; connections := 0; on_close := [];
     armed := []; exit_code := None |}.

(** All open connections come to their end. *)
Definition settle (w : World) : World :=
  run (repeat ConnectionClosed (connections w)) w.

End Process.

(** ** Concrete runtimes and requests *)

Module Sample.

(** A logger that takes every record. *)
Definition quiet : list LogRecord -> LogRecord -> option JsError :=
  fun _ _ => None.

(** A logger that throws on every record. *)
Definition broken : list LogRecord -> LogRecord -> option JsError :=
  fun _ _ =>
    Some {| err_message := "logger failure"; err_status := None;
            err_stack := Some "Error: logger failure" |}.

(** A logger that throws, on every record, an error that carries a status. *)
Definition broken_with (code : Z) : list LogRecord -> LogRecord -> option JsError :=
  fun _ _ =>
    Some {| err_message := "logger failure"; err_status := Some code;
            err_stack := Some "Error: logger failure" |}.

(** [JSON.parse] on the two bodies used below: the empty object parses, an
    opening brace alone does not. *)
Definition parse (s : string) : Parse :=
  if String.eqb s "{}" then Parsed []
  else SyntaxError "Expected property name or '}' in JSON at position 1"
         "SyntaxError: Expected property name or '}' in JSON at position 1".

Definition headers : gmap string string :=
  {[ "content-security-policy" := "default-src 'self'";
     "x-content-type-options" := "nosniff";
     "x-frame-options" := "SAMEORIGIN" ]}.

(** [url.parse] on the targets used below, which all start with [/]: the
    path ends where the query string or the fragment starts. *)
Fixpoint path_of (s : string) : string :=
  match s with
  | EmptyString => EmptyString
  | String c r =>
      if Ascii.eqb c "?" || Ascii.eqb c "#" then EmptyString
      else String c (path_of r)
  end.

(** The cache validation on the requests used below: [If-None-Match: *]
    matches every entity. *)
Definition matches_any (h : list (string * string)) (p : Payload) : bool :=
  match header "if-none-match" h with
  | Some v => String.eqb v "*"
  | None => false
  end.

(** A runtime for a mode and a logger.  No header of the samples is a
    content type, so that [with_charset] is never consulted. *)
Definition runtime (env : option string)
    (sink : list LogRecord -> LogRecord -> option JsError) : Runtime :=
  {| NODE_ENV := env; PORT := None; logger_sink := sink; JSON_parse := parse;
     qs_parse := fun _ => []; helmet_headers := headers;
     with_charset := fun t => t;
     url_parse := path_of; still_fresh := matches_any;
     stack_frames := EmptyString |}.

Definition development : Runtime := runtime None quiet.
Definition production : Runtime := runtime (Some "production") quiet.
Definition mute : Runtime := runtime None broken.
Definition mute_with (code : Z) : Runtime := runtime None (broken_with code).

Definition get (url : string) : Request :=
  {| req_method := "GET"; req_originalUrl := url; req_ip := "127.0.0.1";
     req_headers := [("user-agent", "curl/8.5.0")]; req_raw := None;
     req_body := NoBody |}.

(** A request of another method, without a body. *)
Definition bare (method url : string) : Request :=
  {| req_method := method; req_originalUrl := url; req_ip := "127.0.0.1";
     req_headers := []; req_raw := None; req_body := NoBody |}.

(** A [GET] that asks whether the client's copy is still good. *)
Definition revalidate (url : string) : Request :=
  {| req_method := "GET"; req_originalUrl := url; req_ip := "127.0.0.1";
     req_headers := [("if-none-match", "*")]; req_raw := None;
     req_body := NoBody |}.

(** A request that carries a JSON body. *)
Definition with_json (method url raw : string) : Request :=
  {| req_method := method; req_originalUrl := url; req_ip := "127.0.0.1";
     req_headers := [("content-type", "application/json")];
     req_raw := Some raw; req_body := NoBody |}.

Definition world0 : World :=
  {| log := []; clock := 0; boot := 0; connections := 0; on_close := [];
     armed := []; exit_code := None |}.

Definition exchange (req : Request) : Exchange :=
  {| request := req; response := fresh_response; world := world0 |}.

End Sample.

(** ** Which requests the routes answer *)

Definition route_hits (r : RouteEntry) (method path : string) : bool :=
  path_matches (route_path r) path && handles_method (route_method r) method.

(** A mounted router answers when one of its routes does and, for
    [OPTIONS], when the path is that of one of its routes. *)
Definition router_answers (routes : list RouteEntry) (method path : string) : bool :=
  existsb (fun r =>
    path_matches (route_path r) path
    && (handles_method (route_method r) method || String.eqb method "OPTIONS")) routes.

Definition layer_answers (rt : Runtime) (req : Request) (l : Layer) : bool :=
  match l with
  | Route r => route_hits r (req_method req) (pathname rt (req_originalUrl req))
  | UseRouter prefix routes =>
      match mounted_path prefix (pathname rt (req_originalUrl req)) with
      | Some inner => router_answers routes (req_method req) inner
      | None => false
      end
  | Use _ => false
  | UseError _ => false
  end.

(** The application answers the request on its routes: a registered route
    matches its method and path, or it is an [OPTIONS] request on the path
    of a route of the [/api] router, to which the router replies itself. *)
Definition routed (rt : Runtime) (req : Request) : bool :=
  existsb (layer_answers rt req) (app rt).

(** A registered route matches the method and the path of the request. *)
Definition layer_matches (rt : Runtime) (req : Request) (l : Layer) : bool :=
  match l with
  | Route r => route_hits r (req_method req) (pathname rt (req_originalUrl req))
  | UseRouter prefix routes =>
      match mounted_path prefix (pathname rt (req_originalUrl req)) with
      | Some inner => existsb (fun r => route_hits r (req_method req) inner) routes
      | None => false
      end
  | Use _ => false
  | UseError _ => false
  end.

Definition matched (rt : Runtime) (req : Request) : bool :=
  existsb (layer_matches rt req) (app rt).

(** The JSON body parser lets the request through: it has no body, or not a
    JSON one, or one that parses. *)
Definition body_accepted (rt : Runtime) (req : Request) : Prop :=
  forall raw, req_raw req = Some raw ->
    has_type req "application/json" = true ->
    exists v, JSON_parse rt raw = Parsed v.

(** The logger takes the record, whatever it was handed before. *)
Definition accepts (rt : Runtime) (r : LogRecord) : Prop :=
  forall h, logger_sink rt h r = None.

(** The logger takes every record of level [error]. *)
Definition takes_errors (rt : Runtime) : Prop :=
  forall r, level r = error -> accepts rt r.

(** The records of the not-found middleware and of the health handler. *)
Definition not_found_record (req : Request) : LogRecord :=
  {| level := warn;
     msg := "404 Not Found: " +:+ req_method req +:+ " " +:+ req_originalUrl req;
     args := [] |}.

Definition health_record : LogRecord :=
  {| level := info; msg := "Health check requested."; args := [] |}.

(** The records of the fault handlers of [app.js]. *)
Definition bind_failure_record (rt : Runtime) (code : string) (err : JsError) : LogRecord :=
  if String.eqb code "EADDRINUSE" then
    {| level := error;
       msg := "Port " +:+ port rt +:+ " is already in use. Please stop the other process or choose a different port.";
       args := [] |}
  else
    {| level := error;
       msg := "Server startup failed: " +:+ err_message err;
       args := [ArgObject [("stack", js_of_opt (err_stack err))]] |}.

Definition rejection_record (reason : JsError) : LogRecord :=
  {| level := error;
     msg := "Unhandled Rejection at:";
     args := [ArgPromise; ArgValue (JsString "reason:"); ArgError reason] |}.

Definition exception_record (err : JsError) : LogRecord :=
  {| level := error;
     msg := "Uncaught Exception:";
     args := [ArgValue (JsString (err_message err));
              ArgObject [("stack", js_of_opt (err_stack err))]] |}.

(** The status the error middleware sets for an error: [err.status || 500]. *)
Definition status_of (err : JsError) : Z := js_or_num (err_status err) 500.

(** A write with status [code] goes out as it was prepared, payload
    included: Node writes the code, a response with that code carries a
    body, and the client holds no fresh copy. *)
Definition goes_out (rt : Runtime) (req : Request) (code : Z) (p : Payload) : bool :=
  valid_status code && carries_body code && negb (req_fresh rt req code p).

(** ** What a request in flight leaves untouched *)

(** The process is as it was, but for its log. *)
Definition same_process (w w' : World) : Prop :=
  clock w' = clock w /\ boot w' = boot w /\ connections w' = connections w
  /\ on_close w' = on_close w /\ armed w' = armed w
  /\ exit_code w' = exit_code w.

(** The request is as it was, but for its parsed body. *)
Definition same_request (r r' : Request) : Prop :=
  req_method r' = req_method r /\ req_originalUrl r' = req_originalUrl r
  /\ req_ip r' = req_ip r /\ req_headers r' = req_headers r
  /\ req_raw r' = req_raw r.

(** The headers that describe the entity sent; Express sets and removes them
    as it writes. *)
Definition entity_headers : list string :=
  ["content-type"; "content-length"; "transfer-encoding";
   "content-encoding"; "content-language"; "content-range"].

(** The headers that Express may set over a value set before: [Allow] on the
    router's reply to [OPTIONS], and the two security headers of the final
    handler. *)
Definition overridden_headers : list string :=
  ["allow"; "content-security-policy"; "x-content-type-options"].

(** Every header that was set and does not describe the entity is still
    set, and with its value unless Express may override it. *)
Definition headers_kept (h h' : gmap string string) : Prop :=
  forall k v, h !! k = Some v -> k ∉ entity_headers ->
    exists v', h' !! k = Some v' /\ (k ∉ overridden_headers -> v' = v).

(** From [x] to [x']: the log has only grown, the rest of the process and
    the request line are the same, and no header was lost. *)
Definition evolves (x x' : Exchange) : Prop :=
  same_process (world x) (world x')
  /\ (exists l, log (world x') = (log (world x) ++ l)%list)
  /\ same_request (request x) (request x')
  /\ headers_kept (res_headers (response x)) (res_headers (response x')).

(** A computation that only lets the exchange evolve. *)
Definition steady {A} (m : M Exchange A) : Prop :=
  forall x, evolves x (snd (m x)).

Definition steady_layer (l : Layer) : Prop :=
  match l with
  | Use mw => steady mw
  | UseError h => forall e, steady (h e)
  | Route r => steady (route_handler r)
  | UseRouter _ routes => Forall (fun r => steady (route_handler r)) routes
  end.

(** ** What the layers keep *)

(** A property that holds when a layer starts either holds again when the
    layer hands on, or has turned into another one when the layer has
    answered. *)
Definition layer_keeps (rt : Runtime) (P Q : Exchange -> Prop) (l : Layer) : Prop :=
  forall p x, P x ->
    match run_layer rt l p x with
    | (Continue _, x') => P x'
    | (Done, x') => Q x'
    end.

Definition handler_keeps (P Q : Exchange -> Prop) (h : Handler) : Prop :=
  forall x, P x ->
    match run_handler h x with
    | (Continue _, x') => P x'
    | (Done, x') => Q x'
    end.

Definition unwritten (x : Exchange) : Prop := res_writes (response x) = 0%nat.
Definition written_once (x : Exchange) : Prop := res_writes (response x) = 1%nat.

(** Nothing has been written and the status is still the initial 200. *)
Definition ready (x : Exchange) : Prop :=
  res_writes (response x) = 0%nat /\ res_statusCode (response x) = 200%Z.

(** ** States used in the proofs *)

(** The exchange as [helmet()] leaves it. *)
Definition after_helmet (rt : Runtime) (req : Request) (w : World) : Exchange :=
  {| request := req;
     response :=
       {| res_statusCode := 200; res_headers := helmet_headers rt ∪ ∅;
          res_body := None; res_writes := 0 |};
     world := w |}.

(** The world once a record has been handed to the logger. *)
Definition logged (r : LogRecord) (w : World) : World :=
  {| log := log w ++ [r]; clock := clock w; boot := boot w;
     connections := connections w; on_close := on_close w;
     armed := armed w; exit_code := exit_code w |}.

(** What no event breaks: the clock never reads less than at start, and
    every exit that waits, for the listener to close or for winston's
    handlers, is an exit with code 1. *)
Definition sound (w : World) : Prop :=
  (boot w <= clock w)%Z
  /\ Forall (fun c => c = 1%Z) (on_close w)
  /\ Forall (fun c => c = 1%Z) (armed w).

(** The process has not exited, or has exited with code 1. *)
Definition exits_with_1 (w : World) : Prop :=
  exit_code w = None \/ exit_code w = Some 1%Z.

(** ** The answers the application gives *)

(** The body the error middleware sends for an error. *)
Definition error_payload (rt : Runtime) (e : JsError) : Payload :=
  JsonText (JSON_stringify
    [("message", JsString (err_message e));
     ("stack", if is_production rt then JsString redaction_marker
               else js_of_opt (err_stack e))]).

(** The bodies the routes send, and the router's reply to [OPTIONS]. *)
Definition route_payload (p : Payload) : Prop :=
  p = Text "Hello from setup-a-ci Node.js app!"
  \/ p = Text "Welcome to the Node.js application! Check /api for API endpoints, or /api/health for status."
  \/ (exists up, p = JsonText [("status", JStr "healthy"); ("uptime", JNum up)])
  \/ p = JsonText [("message", JStr "This is some protected data!")]
  \/ p = Text "GET,HEAD".

(** The exchange has been answered once: with status 200 and one of the
    bodies of the routes; or with no body, under a status that carries none;
    or with the status and the envelope of some error; or with the page of
    the final handler. *)
Definition answered (rt : Runtime) (x : Exchange) : Prop :=
  res_writes (response x) = 1%nat
  /\ ((res_statusCode (response x) = 200%Z
       /\ exists p, res_body (response x) = Some p /\ route_payload p)
      \/ (carries_body (res_statusCode (response x)) = false
          /\ res_body (response x) = Some Empty)
      \/ (exists e,
            res_statusCode (response x) = status_of e
            /\ res_body (response x) = Some (error_payload rt e))
      \/ (exists p,
            res_body (response x) = Some (FinalPage (res_statusCode (response x)) p))).

(** * Properties *)

Arguments path_matches : simpl never.
Arguments handles_method : simpl never.
Arguments mounted_path : simpl never.
Arguments pathname : simpl never.
Arguments has_type : simpl never.
Arguments req_get : simpl never.
Arguments js_or_num : simpl never.
Arguments is_production : simpl never.
Arguments req_fresh : simpl never.
Arguments conditional : simpl never.
Arguments valid_status : simpl never.
Arguments carries_body : simpl never.
Arguments goes_out : simpl never.
Arguments error_status : simpl never.
Arguments with_type : simpl never.
Arguments ERR_HTTP_INVALID_STATUS_CODE : simpl never.

(** ** Tactics *)

(** Unfolds the monad and the primitive operations of the response, the
    logger and the process, but for the terminal write. *)
Ltac unfold_js :=
  unfold bind, ret, get_req, in_world, res_json, res_send,
    res_set, res_status, logger_info, logger_warn, logger_error, logger_log,
    process_uptime, process_exit, server_close, with_response, with_body in *.

(** ** The terminal write *)

Section Writes.

Variable rt : Runtime.

Lemma error_status_valid code : error_status code = true -> valid_status code = true.
Proof.
  unfold error_status, valid_status. intros H.
  apply andb_true_iff in H as [H1 H2]. apply Z.leb_le in H1, H2.
  apply andb_true_iff. split; apply Z.leb_le; lia.
Qed.

(** Only a conditional request is answered from the client's cache. *)
Lemma unconditional_is_stale req code p :
  conditional req = false -> req_fresh rt req code p = false.
Proof. intros H. unfold req_fresh. now rewrite H, andb_false_r. Qed.

(** An error status is never turned into 304. *)
Lemma error_is_stale req code p :
  error_status code = true -> req_fresh rt req code p = false.
Proof.
  unfold error_status, req_fresh. intros H.
  apply andb_true_iff in H as [H1 H2]. apply Z.leb_le in H1, H2.
  assert ((Z.leb 200 code && Z.ltb code 300) || Z.eqb code 304 = false) as ->.
  { apply orb_false_intro; [ apply andb_false_intro2, Z.ltb_ge | apply Z.eqb_neq ]; lia. }
  now rewrite andb_false_r.
Qed.

Lemma fresh_is_valid req code p :
  req_fresh rt req code p = true -> valid_status code = true.
Proof.
  unfold req_fresh, valid_status. intros H.
  apply andb_true_iff in H as [H _]. apply andb_true_iff in H as [H _].
  apply andb_true_iff in H as [_ H].
  apply andb_true_iff. apply orb_true_iff in H as [H | H].
  - apply andb_true_iff in H as [H1 H2]. apply Z.leb_le in H1. apply Z.ltb_lt in H2.
    split; apply Z.leb_le; lia.
  - apply Z.eqb_eq in H. split; apply Z.leb_le; lia.
Qed.

Lemma error_status_goes_out req code p :
  error_status code = true -> goes_out rt req code p = true.
Proof.
  intros H. unfold goes_out.
  rewrite error_status_valid, error_is_stale by exact H.
  unfold error_status in H. apply andb_true_iff in H as [H1 H2].
  apply Z.leb_le in H1, H2. unfold carries_body.
  assert (Z.ltb code 200 = false) as -> by (apply Z.ltb_ge; lia).
  assert (Z.eqb code 204 = false) as -> by (apply Z.eqb_neq; lia).
  assert (Z.eqb code 205 = false) as -> by (apply Z.eqb_neq; lia).
  assert (Z.eqb code 304 = false) as -> by (apply Z.eqb_neq; lia).
  reflexivity.
Qed.

(** A write that goes out as it was prepared. *)
Lemma res_end_plain ctype p x :
  res_writes (response x) = 0%nat ->
  goes_out rt (request x) (res_statusCode (response x)) p = true ->
  res_end rt ctype p x =
    (Returned tt,
     {| request := request x;
        response :=
          {| res_statusCode := res_statusCode (response x);
             res_headers := with_type rt ctype (res_headers (response x));
             res_body := Some p;
             res_writes := 1 |};
        world := world x |}).
Proof.
  intros Hw Hg. unfold goes_out in Hg.
  apply andb_true_iff in Hg as [Hg Hf]. apply andb_true_iff in Hg as [Hv Hb].
  apply negb_true_iff in Hf.
  unfold res_end, headersSent, with_response.
  rewrite Hw, Hf. cbv zeta. cbn [Nat.ltb Nat.leb]. rewrite Hv, Hb.
  unfold carries_body in Hb. apply negb_true_iff in Hb.
  apply orb_false_elim in Hb as [Hb H304]. apply orb_false_elim in Hb as [Hb H205].
  apply orb_false_elim in Hb as [_ H204].
  rewrite H204, H205, H304. reflexivity.
Qed.

(** Every first write either goes out, with the status set or with 304,
    and with the payload when that status carries a body, or fails on a
    status that Node does not write and leaves the response unwritten. *)
Lemma res_end_cases ctype p x :
  res_writes (response x) = 0%nat ->
  (exists code hs,
      valid_status code = true
      /\ (code = res_statusCode (response x)
          \/ code = 304%Z
             /\ req_fresh rt (request x) (res_statusCode (response x)) p = true)
      /\ res_end rt ctype p x =
           (Returned tt,
            {| request := request x;
               response :=
                 {| res_statusCode := code; res_headers := hs;
                    res_body := Some (if carries_body code then p else Empty);
                    res_writes := 1 |};
               world := world x |}))
  \/ (valid_status (res_statusCode (response x)) = false
      /\ exists hs,
           res_end rt ctype p x =
             (Thrown (ERR_HTTP_INVALID_STATUS_CODE (res_statusCode (response x))),
              {| request := request x;
                 response := {| res_statusCode := res_statusCode (response x);
                                res_headers := hs;
                                res_body := res_body (response x);
                                res_writes := 0 |};
                 world := world x |})).
Proof.
  intros Hw. unfold res_end, headersSent, with_response. rewrite Hw.
  cbv zeta. cbn [Nat.ltb Nat.leb].
  destruct (req_fresh rt _ _ _) eqn:Hf.
  - left. exists 304%Z. eexists. split; [ reflexivity | ].
    split; [ right; split; reflexivity | reflexivity ].
  - destruct (valid_status (res_statusCode (response x))) eqn:Hv.
    + left. do 2 eexists. split; [ exact Hv | ]. split; [ now left | reflexivity ].
    + right. split; [ reflexivity | ]. eexists. reflexivity.
Qed.

(** A write to a client that holds a fresh copy: 304 and no body. *)
Lemma res_end_fresh ctype p x :
  res_writes (response x) = 0%nat ->
  req_fresh rt (request x) (res_statusCode (response x)) p = true ->
  exists hs,
    res_end rt ctype p x =
      (Returned tt,
       {| request := request x;
          response := {| res_statusCode := 304; res_headers := hs;
                         res_body := Some Empty; res_writes := 1 |};
          world := world x |}).
Proof.
  intros Hw Hf. unfold res_end, headersSent, with_response. rewrite Hw, Hf.
  eexists. reflexivity.
Qed.

(** The first write on a response whose status is still 200. *)
Lemma res_end_ready ctype p x :
  ready x ->
  exists hs,
    res_end rt ctype p x =
      (Returned tt,
       {| request := request x;
          response :=
            if req_fresh rt (request x) 200 p
            then {| res_statusCode := 304; res_headers := hs;
                    res_body := Some Empty; res_writes := 1 |}
            else {| res_statusCode := 200; res_headers := hs;
                    res_body := Some p; res_writes := 1 |};
          world := world x |}).
Proof.
  intros [Hw Hs]. destruct (req_fresh rt (request x) 200 p) eqn:Hf.
  - apply res_end_fresh; [ exact Hw | now rewrite Hs ].
  - eexists. rewrite res_end_plain, Hs; [ reflexivity | exact Hw | ].
    rewrite Hs. unfold goes_out. now rewrite Hf.
Qed.

(** A second write fails and changes nothing. *)
Lemma res_end_sent ctype p x :
  res_writes (response x) <> 0%nat ->
  res_end rt ctype p x = (Thrown ERR_HTTP_HEADERS_SENT, x).
Proof.
  intros Hw. unfold res_end, headersSent.
  destruct (res_writes (response x)); [ contradiction | reflexivity ].
Qed.

End Writes.

(** ** The error middleware on its own *)

Section ErrorStage.

Variable rt : Runtime.

(** The error middleware, step by step: the status, the write, the log. *)
Lemma error_handler_steps err x :
  error_handler rt err x =
    match res_end rt "application/json; charset=utf-8" (error_payload rt err)
            {| request := request x;
               response :=
                 {| res_statusCode := status_of err;
                    res_headers := res_headers (response x);
                    res_body := res_body (response x);
                    res_writes := res_writes (response x) |};
               world := world x |} with
    | (Returned _, x') =>
        (match logger_sink rt (log (world x')) (error_record err (request x)) with
         | None => Returned Stop
         | Some e => Thrown e
         end,
         {| request := request x'; response := response x';
            world := logged (error_record err (request x)) (world x') |})
    | (Thrown e, x') => (Thrown e, x')
    end.
Proof.
  unfold error_handler, error_payload, status_of, error_record, logged.
  unfold_js. cbn [request response world fst snd].
  destruct (res_end rt _ _ _) as [[[] | e] x']; [ | reflexivity ].
  cbn [request response world fst snd].
  destruct (logger_sink rt _ _); reflexivity.
Qed.

(** Its response, when the envelope goes out. *)
Lemma error_handler_response err x :
  res_writes (response x) = 0%nat ->
  goes_out rt (request x) (status_of err) (error_payload rt err) = true ->
  response (snd (error_handler rt err x)) =
    {| res_statusCode := status_of err;
       res_headers :=
         with_type rt "application/json; charset=utf-8" (res_headers (response x));
       res_body := Some (error_payload rt err);
       res_writes := 1 |}.
Proof.
  intros Hw Hg. rewrite error_handler_steps, res_end_plain by assumption.
  reflexivity.
Qed.

(** Its record, when Node writes the status. *)
Lemma error_handler_log err x :
  res_writes (response x) = 0%nat ->
  valid_status (status_of err) = true ->
  log (world (snd (error_handler rt err x))) =
    (log (world x) ++ [error_record err (request x)])%list.
Proof.
  intros Hw Hv. rewrite error_handler_steps.
  match goal with |- context [res_end rt ?c ?p ?y] =>
    destruct (res_end_cases rt c p y Hw) as [(code & hs & _ & _ & ->) | (Hn & _)]
  end.
  - reflexivity.
  - cbn in Hn. congruence.
Qed.

(** It writes once, when Node writes the status, whatever the logger does. *)
Lemma error_handler_writes err x :
  res_writes (response x) = 0%nat ->
  valid_status (status_of err) = true ->
  fst (error_handler rt err x) <> Returned Next
  /\ res_writes (response (snd (error_handler rt err x))) = 1%nat.
Proof.
  intros Hw Hv. rewrite error_handler_steps.
  match goal with |- context [res_end rt ?c ?p ?y] =>
    destruct (res_end_cases rt c p y Hw) as [(code & hs & _ & _ & ->) | (Hn & _)]
  end.
  - cbn. split; [ | reflexivity ]. destruct (logger_sink rt _ _); discriminate.
  - cbn in Hn. congruence.
Qed.

(** It fails before it has written or logged anything, when Node does not
    write the status. *)
Lemma error_handler_fails err x :
  res_writes (response x) = 0%nat ->
  valid_status (status_of err) = false ->
  fst (error_handler rt err x) = Thrown (ERR_HTTP_INVALID_STATUS_CODE (status_of err))
  /\ res_writes (response (snd (error_handler rt err x))) = 0%nat
  /\ res_statusCode (response (snd (error_handler rt err x))) = status_of err
  /\ res_body (response (snd (error_handler rt err x))) = res_body (response x)
  /\ request (snd (error_handler rt err x)) = request x
  /\ world (snd (error_handler rt err x)) = world x.
Proof.
  intros Hw Hv. rewrite error_handler_steps.
  match goal with |- context [res_end rt ?c ?p ?y] =>
    destruct (res_end_cases rt c p y Hw) as [(code & hs & Hc & Hs & _) | (_ & hs & ->)]
  end.
  - exfalso. cbn in Hs. destruct Hs as [-> | (_ & Hf)]; [ congruence | ].
    apply fresh_is_valid in Hf. congruence.
  - cbn. repeat split.
Qed.

End ErrorStage.

(** C10: in every environment mode, production included, every record that
    the error middleware hands to the logger has level [error] and carries
    the error's own stack, unredacted.  It hands over one such record
    whenever its [res.json] has returned, that is on a request not yet
    answered and with a status that Node writes; otherwise [res.json] has
    thrown before the logger is called, and it logs nothing.  In production
    the marker takes the place of the stack in the response body only. *)
Theorem error_log_keeps_raw_stack rt err x :
  (exists l,
      log (world (snd (error_handler rt err x))) = (log (world x) ++ l)%list
      /\ Forall (fun r => level r = error
                         /\ attr "stack" (meta r) = js_of_opt (err_stack err)) l
      /\ (res_writes (response x) = 0%nat ->
          valid_status (status_of err) = true -> length l = 1%nat))
  /\ (is_production rt = true ->
      res_writes (response x) = 0%nat ->
      goes_out rt (request x) (status_of err) (error_payload rt err) = true ->
      exists o,
        res_body (response (snd (error_handler rt err x))) = Some (JsonText o)
        /\ field "stack" o = Some (JStr redaction_marker)).
Proof.
  split.
  - destruct (Nat.eq_dec (res_writes (response x)) 0) as [Hw | Hw].
    + destruct (valid_status (status_of err)) eqn:Hv.
      * exists [error_record err (request x)].
        split; [ now apply error_handler_log | ].
        split; [ repeat constructor | reflexivity ].
      * exists []. destruct (error_handler_fails rt err x Hw Hv) as (_ & _ & _ & _ & _ & ->).
        split; [ now rewrite app_nil_r | ]. split; [ constructor | discriminate ].
    + exists []. rewrite error_handler_steps, res_end_sent by exact Hw.
      split; [ now rewrite app_nil_r | ]. split; [ constructor | contradiction ].
  - intros Hprod Hw Hg. rewrite error_handler_response by assumption.
    unfold error_payload. rewrite Hprod. cbn. eexists. split; reflexivity.
Qed.

Lemma error_log_keeps_raw_stack_witness :
  let err := {| err_message := "boom"; err_status := None;
                err_stack := Some "Error: boom" |} in
  let x := Sample.exchange (Sample.get "/") in
  is_production Sample.production = true
  /\ res_writes (response x) = 0%nat
  /\ goes_out Sample.production (request x) (status_of err)
       (error_payload Sample.production err) = true
  /\ map (fun r => attr "stack" (meta r))
       (log (world (snd (error_handler Sample.production err x)))) =
       [JsString "Error: boom"]
  /\ exists o,
       res_body (response (snd (error_handler Sample.production err x))) = Some (JsonText o)
       /\ field "stack" o = Some (JStr redaction_marker).
Proof.
  cbv zeta. split; [ reflexivity | ]. split; [ reflexivity | ]. split; [ reflexivity | ].
  split; [ reflexivity | ].
  apply (proj2 (error_log_keeps_raw_stack Sample.production
                  {| err_message := "boom"; err_status := None;
                     err_stack := Some "Error: boom" |}
                  (Sample.exchange (Sample.get "/"))));
    reflexivity.
Defined.

(** C2 (as stated) fails: an error whose [status] is [0] is answered with
    500; outside production an error without a stack yields a body that has
    no [stack] field; with the status 1000 the middleware sets a code that
    Node does not write, its [res.json] throws and it has written nothing;
    and with the status 204 the response goes out without a body. *)
Lemma error_status_and_fields_counterexample :
  let x := Sample.exchange (Sample.get "/") in
  let sent s := response (snd (error_handler Sample.development
                  {| err_message := "boom"; err_status := s; err_stack := None |} x)) in
  (res_statusCode (sent (Some 0%Z)) <> 0%Z
   /\ ~ (exists o, res_body (sent (Some 0%Z)) = Some (JsonText o)
                   /\ fields o = ["message"; "stack"]))
  /\ res_writes (sent (Some 1000%Z)) = 0%nat
  /\ (res_statusCode (sent (Some 204%Z)) = 204%Z
      /\ res_body (sent (Some 204%Z)) = Some Empty).
Proof.
  cbv zeta. split; [ split | split; [ | split ] ]; try reflexivity.
  - vm_compute. discriminate.
  - intros (o & Hb & Hf). vm_compute in Hb. injection Hb as <-. discriminate Hf.
Qed.

(** C2 (amended): on a request not yet answered, when the envelope goes out
    (the status that the error middleware sets, [err.status || 500], is one
    that Node writes and that carries a body, as every 4xx and 5xx code is,
    and the request is not answered from the client's cache), the response
    has the error's [status] when that is present and not zero, and 500
    otherwise; the body is a JSON object whose [message] is the error's
    message, followed by a [stack] field, which is left out only when the
    mode is not production and the error has no stack. *)
Theorem error_response_status_and_body rt err x :
  res_writes (response x) = 0%nat ->
  goes_out rt (request x) (status_of err) (error_payload rt err) = true ->
  (forall n, err_status err = Some n -> n <> 0%Z ->
     res_statusCode (response (snd (error_handler rt err x))) = n)
  /\ (err_status err = None \/ err_status err = Some 0%Z ->
     res_statusCode (response (snd (error_handler rt err x))) = 500%Z)
  /\ exists o,
       res_body (response (snd (error_handler rt err x))) = Some (JsonText o)
       /\ field "message" o = Some (JStr (err_message err))
       /\ fields o =
            if is_production rt then ["message"; "stack"]
            else match err_stack err with
                 | Some _ => ["message"; "stack"]
                 | None => ["message"]
                 end.
Proof.
  intros Hw Hg. rewrite error_handler_response by assumption.
  cbn [res_statusCode res_body]. unfold status_of, js_or_num, error_payload.
  split; [ | split ].
  - intros n Hn Hnz. rewrite Hn.
    destruct (Z.eqb_spec n 0); [ contradiction | reflexivity ].
  - intros [Hn | Hn]; rewrite Hn; reflexivity.
  - destruct (is_production rt); [ | destruct (err_stack err) ];
      cbn; eexists; repeat split; reflexivity.
Qed.

Lemma error_response_status_and_body_witness :
  let err := {| err_message := "boom"; err_status := Some 418%Z; err_stack := None |} in
  let x := Sample.exchange (Sample.get "/") in
  res_writes (response x) = 0%nat
  /\ goes_out Sample.development (request x) (status_of err)
       (error_payload Sample.development err) = true
  /\ res_statusCode (response (snd (error_handler Sample.development err x))) = 418%Z.
Proof.
  cbv zeta. split; [ reflexivity | ]. split; [ reflexivity | ].
  refine (proj1 (error_response_status_and_body Sample.development _ _ _ _) 418%Z _ _);
    [ reflexivity | reflexivity | reflexivity | discriminate ].
Defined.

(** C3 (as stated) fails: outside production, an error that has no stack is
    answered with a body in which no [stack] field holds a non-empty
    string. *)
Lemma error_stack_counterexample :
  let err := {| err_message := "boom"; err_status := Some 400%Z; err_stack := None |} in
  let r := response (snd (error_handler Sample.development err
                            (Sample.exchange (Sample.get "/")))) in
  is_production Sample.development = false
  /\ ~ (exists o s, res_body r = Some (JsonText o)
                    /\ field "stack" o = Some (JStr s) /\ s <> EmptyString).
Proof.
  cbv zeta. split; [ reflexivity | ].
  intros (o & s & Hb & Hf & _). vm_compute in Hb. injection Hb as <-.
  discriminate Hf.
Qed.

(** C3 (amended): on a request not yet answered, when the envelope goes out
    (the status is one that Node writes and that carries a body, as every
    4xx and 5xx code is, and the request is not answered from the client's
    cache), in production its
    [stack] field is the redaction marker, whatever the error's stack; in
    any other mode it is the error's own stack, verbatim, and is absent
    when the error has none.  The error that the not-found middleware
    creates always has a non-empty stack. *)
Theorem error_response_stack rt err x :
  res_writes (response x) = 0%nat ->
  goes_out rt (request x) (status_of err) (error_payload rt err) = true ->
  (exists o,
     res_body (response (snd (error_handler rt err x))) = Some (JsonText o)
     /\ (is_production rt = true -> field "stack" o = Some (JStr redaction_marker))
     /\ (is_production rt = false -> field "stack" o = JStr <$> err_stack err))
  /\ (forall m code, exists s,
        err_stack (set_status (new_Error rt m) code) = Some s /\ s <> EmptyString).
Proof.
  intros Hw Hg. rewrite error_handler_response by assumption.
  cbn [res_body]. unfold error_payload. split.
  - destruct (is_production rt); [ | destruct (err_stack err) ];
      cbn; eexists; (split; [ reflexivity | ]); split; intros;
      (discriminate || reflexivity).
  - intros m code. eexists. split; [ reflexivity | discriminate ].
Qed.

Lemma error_response_stack_witness :
  let err := {| err_message := "boom"; err_status := None;
                err_stack := Some "Error: boom" |} in
  let x := Sample.exchange (Sample.get "/") in
  res_writes (response x) = 0%nat
  /\ goes_out Sample.production (request x) (status_of err)
       (error_payload Sample.production err) = true
  /\ ((exists o,
         res_body (response (snd (error_handler Sample.production err x))) = Some (JsonText o)
         /\ (is_production Sample.production = true -> field "stack" o = Some (JStr redaction_marker))
         /\ (is_production Sample.production = false -> field "stack" o = JStr <$> err_stack err))
      /\ (forall m code, exists s,
            err_stack (set_status (new_Error Sample.production m) code) = Some s /\ s <> EmptyString)).
Proof.
  cbv zeta. split; [ reflexivity | ]. split; [ reflexivity | ].
  apply (error_response_stack Sample.production); reflexivity.
Defined.

(** ** The request logging middleware *)

(** C6 (as stated) fails: with a logger that throws, the request logging
    middleware does not hand the request on; the exception reaches the
    error middleware and [GET /] is answered with 500. *)
Lemma log_failure_counterexample :
  let x := Sample.exchange (Sample.get "/") in
  logger_sink Sample.mute (log (world x)) (access_record (request x)) <> None
  /\ fst (run_layer Sample.mute (Use (request_logger Sample.mute)) None x) <> Continue None
  /\ res_statusCode (response (serve Sample.mute (Sample.get "/") Sample.world0)) = 500%Z.
Proof.
  cbv zeta. split; [ discriminate | ]. split; [ | reflexivity ].
  vm_compute. discriminate.
Qed.

(** C6 (amended): when the logger returns, the request logging middleware
    calls [next()] and leaves request and response as they were, the record
    being its only effect; when the logger throws, nothing catches the
    exception in the middleware: the dispatcher forwards it as the request's
    error, with request and response unchanged. *)
Theorem request_logger_outcome rt x :
  (logger_sink rt (log (world x)) (access_record (request x)) = None ->
   exists x',
     run_layer rt (Use (request_logger rt)) None x = (Continue None, x')
     /\ request x' = request x /\ response x' = response x
     /\ log (world x') = (log (world x) ++ [access_record (request x)])%list)
  /\ (forall e,
      logger_sink rt (log (world x)) (access_record (request x)) = Some e ->
      exists x',
        run_layer rt (Use (request_logger rt)) None x = (Continue (Some e), x')
        /\ request x' = request x /\ response x' = response x).
Proof.
  split; [ intros H | intros e H ];
    unfold run_layer, run_middleware, request_logger, access_record in *;
    unfold_js; cbn in *; rewrite H; cbn; eexists; repeat split.
Qed.

Lemma request_logger_outcome_witness :
  let x := Sample.exchange (Sample.get "/") in
  logger_sink Sample.development (log (world x)) (access_record (request x)) = None
  /\ exists x',
       run_layer Sample.development (Use (request_logger Sample.development)) None x
         = (Continue None, x')
       /\ request x' = request x /\ response x' = response x
       /\ log (world x') = (log (world x) ++ [access_record (request x)])%list.
Proof.
  cbv zeta. split; [ reflexivity | ].
  apply (proj1 (request_logger_outcome Sample.development _)). reflexivity.
Defined.

(** ** Reasoning about the dispatcher *)

Lemma handle_cons_keeps rt (P Q : Exchange -> Prop) l stack :
  layer_keeps rt P Q l ->
  (forall p x, P x -> Q (handle rt stack p x)) ->
  forall p x, P x -> Q (handle rt (l :: stack) p x).
Proof.
  intros Hl Hs p x HP. cbn [handle]. specialize (Hl p x HP).
  destruct (run_layer rt l p x) as [[p' | ] x']; [ now apply Hs | exact Hl ].
Qed.

Lemma handle_continue rt l stack p x p' x' :
  run_layer rt l p x = (Continue p', x') ->
  handle rt (l :: stack) p x = handle rt stack p' x'.
Proof. intros E. cbn [handle]. now rewrite E. Qed.

Lemma handle_done rt l stack p x x' :
  run_layer rt l p x = (Done, x') ->
  handle rt (l :: stack) p x = x'.
Proof. intros E. cbn [handle]. now rewrite E. Qed.

Lemma layer_keeps_weaken rt (P Q Q' : Exchange -> Prop) l :
  (forall x, Q x -> Q' x) -> layer_keeps rt P Q l -> layer_keeps rt P Q' l.
Proof.
  intros HQ Hl p x HP. specialize (Hl p x HP).
  destruct (run_layer rt l p x) as [[p' | ] x']; [ exact Hl | now apply HQ ].
Qed.

Lemma run_handler_returns (h : Handler) x :
  fst (h x) = Returned tt -> run_handler h x = (Done, snd (h x)).
Proof.
  unfold run_handler. destruct (h x) as [[[] | e] x']; cbn; [ reflexivity | discriminate ].
Qed.

Lemma finalhandler_sent p x : written_once x -> finalhandler p x = x.
Proof.
  unfold written_once, finalhandler, headersSent. intros ->. reflexivity.
Qed.

(** ** Who answers, and with what *)

Ltac pick :=
  solve [ reflexivity | eexists; reflexivity | left; pick | right; pick ].

Section Answers.

Variable rt : Runtime.

Lemma answered_once x : answered rt x -> written_once x.
Proof. now intros [H _]. Qed.

(** A route that sends one of the route bodies. *)
Lemma res_end_answers ctype p :
  route_payload p -> handler_keeps ready (answered rt) (res_end rt ctype p).
Proof.
  intros Hp x Hx. unfold run_handler.
  destruct (res_end_ready rt ctype p x Hx) as (hs & ->).
  destruct (req_fresh rt _ _ _); (split; [ reflexivity | ]).
  - right. left. split; reflexivity.
  - left. split; [ reflexivity | ]. exists p. split; [ reflexivity | exact Hp ].
Qed.

Lemma api_root_answers : handler_keeps ready (answered rt) (api_root rt).
Proof. apply res_end_answers. unfold route_payload. pick. Qed.

Lemma api_data_answers : handler_keeps ready (answered rt) (api_data rt).
Proof. apply res_end_answers. unfold route_payload. pick. Qed.

Lemma root_answers : handler_keeps ready (answered rt) (root rt).
Proof. apply res_end_answers. unfold route_payload. pick. Qed.

(** The router's reply to [OPTIONS], step by step. *)
Lemma sendOptionsResponse_steps options x :
  res_writes (response x) = 0%nat ->
  sendOptionsResponse rt options x =
    res_end rt "text/html; charset=utf-8" (Text (join_comma options))
      {| request := request x;
         response :=
           {| res_statusCode := res_statusCode (response x);
              res_headers := <["allow" := join_comma options]> (res_headers (response x));
              res_body := res_body (response x);
              res_writes := res_writes (response x) |};
         world := world x |}.
Proof.
  intros Hw. unfold sendOptionsResponse. unfold_js. unfold headersSent.
  rewrite Hw. reflexivity.
Qed.

Lemma options_answers :
  handler_keeps ready (answered rt) (sendOptionsResponse rt ["GET"; "HEAD"]).
Proof.
  intros x [Hw Hs]. unfold run_handler. rewrite sendOptionsResponse_steps by exact Hw.
  apply (res_end_answers _ (Text "GET,HEAD")); [ unfold route_payload; pick | ].
  split; assumption.
Qed.

(** The health handler, step by step: the log, the status, the write. *)
Lemma api_health_steps x :
  api_health rt x =
    match logger_sink rt (log (world x)) health_record with
    | Some e =>
        (Thrown e,
         {| request := request x; response := response x;
            world := logged health_record (world x) |})
    | None =>
        res_end rt "application/json; charset=utf-8"
          (JsonText [("status", JStr "healthy");
                     ("uptime", JNum (clock (world x) - boot (world x)))])
          {| request := request x;
             response :=
               {| res_statusCode := 200;
                  res_headers := res_headers (response x);
                  res_body := res_body (response x);
                  res_writes := res_writes (response x) |};
             world := logged health_record (world x) |}
    end.
Proof.
  unfold api_health, health_record, logged. unfold_js.
  cbn [request response world fst snd].
  destruct (logger_sink rt _ _); reflexivity.
Qed.

Lemma api_health_answers : handler_keeps ready (answered rt) (api_health rt).
Proof.
  intros x [Hw Hs]. unfold run_handler. rewrite api_health_steps.
  destruct (logger_sink rt _ _); [ split; assumption | ].
  apply (res_end_answers _ (JsonText _)); [ unfold route_payload; pick | ].
  split; [ exact Hw | reflexivity ].
Qed.

Lemma apiRouter_answers path x :
  ready x ->
  match router_handle rt (apiRouter rt) path [] x with
  | (Continue _, x') => ready x'
  | (Done, x') => answered rt x'
  end.
Proof.
  intros Hx. unfold apiRouter.
  cbn [router_handle route_path route_method route_handler route_options
       append_methods existsb String.eqb Ascii.eqb Bool.eqb orb app].
  repeat match goal with
         | |- context [ if path_matches ?a ?b then _ else _ ] => destruct (path_matches a b)
         | |- context [ if handles_method ?a ?b then _ else _ ] => destruct (handles_method a b)
         | |- context [ if String.eqb ?a ?b then _ else _ ] => destruct (String.eqb a b)
         end;
    first [ exact Hx
          | now apply api_root_answers
          | now apply api_health_answers
          | now apply api_data_answers
          | now apply options_answers ].
Qed.

End Answers.

(** ** Every request is answered exactly once *)

Section OneAnswer.

Variable rt : Runtime.

Lemma helmet_passes : layer_keeps rt ready (answered rt) (Use (helmet rt)).
Proof. intros p x Hx. destruct p; exact Hx. Qed.

Lemma express_json_passes : layer_keeps rt ready (answered rt) (Use (express_json rt)).
Proof.
  intros p x Hx. destruct p; [ exact Hx | ].
  unfold run_layer, run_middleware, express_json.
  destruct (req_raw _); [ | exact Hx ].
  destruct (has_type _ _); [ | exact Hx ].
  destruct (JSON_parse _ _); exact Hx.
Qed.

Lemma express_urlencoded_passes :
  layer_keeps rt ready (answered rt) (Use (express_urlencoded rt)).
Proof.
  intros p x Hx. destruct p; [ exact Hx | ].
  unfold run_layer, run_middleware, express_urlencoded.
  destruct (req_raw _); [ | exact Hx ].
  destruct (has_type _ _); exact Hx.
Qed.

Lemma request_logger_passes :
  layer_keeps rt ready (answered rt) (Use (request_logger rt)).
Proof.
  intros p x Hx. destruct p; [ exact Hx | ].
  unfold run_layer, run_middleware, request_logger. unfold_js. cbn.
  destruct (logger_sink rt _ _); exact Hx.
Qed.

Lemma apiRouter_passes :
  layer_keeps rt ready (answered rt) (UseRouter "/api" (apiRouter rt)).
Proof.
  intros p x Hx. destruct p; [ exact Hx | ]. unfold run_layer.
  destruct (mounted_path _ _); [ now apply apiRouter_answers | exact Hx ].
Qed.

Lemma root_passes :
  layer_keeps rt ready (answered rt)
    (Route {| route_method := "GET"; route_path := "/"; route_handler := root rt |}).
Proof.
  intros p x Hx. destruct p; [ exact Hx | ]. unfold run_layer.
  destruct (_ && _); [ now apply root_answers | exact Hx ].
Qed.

(** The layers before the not-found middleware. *)
Lemma routes_pass :
  Forall (layer_keeps rt ready (answered rt)) (firstn 6 (app rt)).
Proof.
  unfold app. cbn [firstn].
  constructor; [ apply helmet_passes | ].
  constructor; [ apply express_json_passes | ].
  constructor; [ apply express_urlencoded_passes | ].
  constructor; [ apply request_logger_passes | ].
  constructor; [ apply apiRouter_passes | ].
  constructor; [ apply root_passes | constructor ].
Qed.

(** The not-found middleware always hands an error on, and writes
    nothing. *)
Lemma not_found_forwards x :
  exists e x',
    run_middleware (not_found rt) x = (Continue (Some e), x')
    /\ request x' = request x /\ response x' = response x.
Proof.
  unfold run_middleware, not_found. unfold_js. cbn.
  destruct (logger_sink rt _ _); do 2 eexists; repeat split.
Qed.

(** Once an error is pending on an unwritten response whose status Node
    writes, the error middleware decides the exchange. *)
Lemma error_stage_decides e x :
  unwritten x ->
  valid_status (status_of e) = true ->
  handle rt [UseError (error_handler rt)] (Some e) x = snd (error_handler rt e x).
Proof.
  intros Hx Hv. cbn [handle run_layer]. unfold run_middleware.
  destruct (error_handler_writes rt e x Hx Hv) as (Hf & Hw).
  destruct (error_handler rt e x) as [[[ | e' | ] | e'] x']; cbn [fst snd] in *;
    solve [ reflexivity | now apply finalhandler_sent | now contradiction Hf ].
Qed.

(** When Node does not write the status, the middleware has thrown and the
    final handler answers, with its page for Node's error. *)
Lemma error_stage_falls_back e x :
  unwritten x ->
  valid_status (status_of e) = false ->
  handle rt [UseError (error_handler rt)] (Some e) x =
    finalhandler (Some (ERR_HTTP_INVALID_STATUS_CODE (status_of e)))
      (snd (error_handler rt e x)).
Proof.
  intros Hx Hv. cbn [handle run_layer]. unfold run_middleware.
  destruct (error_handler_fails rt e x Hx Hv) as (Hf & _).
  destruct (error_handler rt e x) as [[[ | e' | ] | e'] x']; cbn [fst snd] in *;
    try discriminate Hf.
  now injection Hf as ->.
Qed.

(** The page of the final handler on an unwritten response. *)
Lemma finalhandler_answers p x :
  unwritten x ->
  res_writes (response (finalhandler p x)) = 1%nat
  /\ res_statusCode (response (finalhandler p x)) = final_status p (response x)
  /\ res_body (response (finalhandler p x)) =
       Some (FinalPage (final_status p (response x)) p)
  /\ request (finalhandler p x) = request x
  /\ world (finalhandler p x) = world x.
Proof.
  unfold unwritten, finalhandler, headersSent, with_response. intros ->.
  cbn. repeat split.
Qed.

Lemma error_stage_answers e x :
  unwritten x ->
  answered rt (handle rt [UseError (error_handler rt)] (Some e) x).
Proof.
  intros Hx. destruct (valid_status (status_of e)) eqn:Hv.
  - rewrite error_stage_decides by assumption.
    rewrite error_handler_steps.
    match goal with |- context [res_end rt ?c ?p ?y] =>
      destruct (res_end_cases rt c p y Hx) as [(code & hs & _ & Hc & ->) | (Hn & _)]
    end; [ | cbn in Hn; congruence ].
    cbn in Hc |- *. split; [ reflexivity | ].
    destruct (carries_body code) eqn:Hb.
    + right. right. left. exists e. split; [ | reflexivity ].
      destruct Hc as [-> | (-> & _)]; [ reflexivity | discriminate Hb ].
    + right. left. split; [ exact Hb | reflexivity ].
  - rewrite error_stage_falls_back by assumption.
    destruct (error_handler_fails rt e x Hx Hv) as (_ & Hw & _).
    destruct (finalhandler_answers (Some (ERR_HTTP_INVALID_STATUS_CODE (status_of e)))
                _ Hw) as (H1 & H2 & H3 & _).
    split; [ exact H1 | ]. right. right. right. eexists. rewrite H2. exact H3.
Qed.

Lemma terminal_stage_answers p x :
  unwritten x ->
  answered rt (handle rt [Use (not_found rt); UseError (error_handler rt)] p x).
Proof.
  intros Hx.
  assert (exists e x', run_layer rt (Use (not_found rt)) p x = (Continue (Some e), x')
                        /\ unwritten x') as (e & x' & E & Hx').
  { destruct p as [e | ].
    - exists e, x. split; [ reflexivity | exact Hx ].
    - destruct (not_found_forwards x) as (e & x' & E & _ & Hr).
      exists e, x'. split; [ exact E | ]. unfold unwritten in *. now rewrite Hr. }
  rewrite (handle_continue _ _ _ _ _ _ _ E). now apply error_stage_answers.
Qed.

Lemma app_answers :
  forall p x, ready x -> answered rt (handle rt (app rt) p x).
Proof.
  unfold app.
  apply handle_cons_keeps; [ apply helmet_passes | ].
  apply handle_cons_keeps; [ apply express_json_passes | ].
  apply handle_cons_keeps; [ apply express_urlencoded_passes | ].
  apply handle_cons_keeps; [ apply request_logger_passes | ].
  apply handle_cons_keeps; [ apply apiRouter_passes | ].
  apply handle_cons_keeps; [ apply root_passes | ].
  intros p x [Hx _]. now apply terminal_stage_answers.
Qed.

Lemma serve_answers req w : answered rt (serve rt req w).
Proof. apply app_answers. split; reflexivity. Qed.

Lemma serve_writes req w : written_once (serve rt req w).
Proof. apply (answered_once rt), serve_answers. Qed.

End OneAnswer.

(** ** What serving a request leaves untouched *)

Lemma same_process_refl w : same_process w w.
Proof. repeat split. Qed.

Lemma headers_kept_refl h : headers_kept h h.
Proof. intros k v H _. now exists v. Qed.

Lemma headers_kept_trans h1 h2 h3 :
  headers_kept h1 h2 -> headers_kept h2 h3 -> headers_kept h1 h3.
Proof.
  intros H12 H23 k v Hk He.
  destruct (H12 k v Hk He) as (v2 & Hk2 & Hv2).
  destruct (H23 k v2 Hk2 He) as (v3 & Hk3 & Hv3).
  exists v3. split; [ exact Hk3 | ]. intros Hne. rewrite Hv3, Hv2; auto.
Qed.

Ltac listed :=
  repeat first [ apply list_elem_of_here | apply list_elem_of_further ].

(** Setting or removing a header that describes the entity. *)
Lemma headers_kept_entity_set k0 v0 h :
  k0 ∈ entity_headers -> headers_kept h (<[k0 := v0]> h).
Proof.
  intros H0 k v Hk He. exists v. split; [ | reflexivity ].
  rewrite lookup_insert_ne; [ exact Hk | ]. intros ->. contradiction.
Qed.

Lemma headers_kept_entity_removed k0 h :
  k0 ∈ entity_headers -> headers_kept h (delete k0 h).
Proof.
  intros H0 k v Hk He. exists v. split; [ | reflexivity ].
  rewrite lookup_delete_ne; [ exact Hk | ]. intros ->. contradiction.
Qed.

(** Setting a header that Express may override. *)
Lemma headers_kept_override k0 v0 h :
  k0 ∈ overridden_headers -> headers_kept h (<[k0 := v0]> h).
Proof.
  intros H0 k v Hk He. destruct (decide (k0 = k)) as [<- | Hne].
  - exists v0. rewrite lookup_insert_eq. split; [ reflexivity | ].
    intros Hn. contradiction.
  - exists v. rewrite lookup_insert_ne by assumption. now split.
Qed.

Lemma headers_kept_with_type rt ctype h : headers_kept h (with_type rt ctype h).
Proof.
  unfold with_type. destruct (h !! "content-type");
    apply headers_kept_entity_set; listed.
Qed.

Lemma evolves_refl x : evolves x x.
Proof.
  split; [ apply same_process_refl | ].
  split; [ exists []; now rewrite app_nil_r | ].
  split; [ repeat split | apply headers_kept_refl ].
Qed.

Lemma evolves_trans x y z : evolves x y -> evolves y z -> evolves x z.
Proof.
  intros ((c1 & b1 & n1 & o1 & a1 & e1) & (l1 & L1) & (m1 & u1 & i1 & h1 & r1) & H1)
         ((c2 & b2 & n2 & o2 & a2 & e2) & (l2 & L2) & (m2 & u2 & i2 & h2 & r2) & H2).
  split; [ repeat split; congruence | ].
  split; [ exists (l1 ++ l2)%list; rewrite L2, L1; now rewrite app_assoc | ].
  split; [ repeat split; congruence | ].
  eapply headers_kept_trans; eassumption.
Qed.

(** A change of the response alone. *)
Lemma evolves_response rq w r r' :
  headers_kept (res_headers r) (res_headers r') ->
  evolves {| request := rq; response := r; world := w |}
          {| request := rq; response := r'; world := w |}.
Proof.
  intros H. split; [ apply same_process_refl | ].
  split; [ exists []; now rewrite app_nil_r | ].
  split; [ repeat split | exact H ].
Qed.

Lemma evolves_with_response f x :
  headers_kept (res_headers (response x)) (res_headers (f (response x))) ->
  evolves x (with_response f x).
Proof. destruct x as [rq r w]. apply evolves_response. Qed.

Lemma steady_ret {A} (a : A) : steady (ret a).
Proof. intros x. apply evolves_refl. Qed.

Lemma steady_bind {A B} (m : M Exchange A) (k : A -> M Exchange B) :
  steady m -> (forall a, steady (k a)) -> steady (bind m k).
Proof.
  intros Hm Hk x. unfold bind. specialize (Hm x).
  destruct (m x) as [[a | e] x']; cbn in *; [ | exact Hm ].
  eapply evolves_trans; [ exact Hm | apply Hk ].
Qed.

Lemma steady_get_req : steady get_req.
Proof. intros x. apply evolves_refl. Qed.

Lemma steady_res_status code : steady (res_status code).
Proof.
  intros x. unfold res_status. cbn [snd].
  apply evolves_with_response, headers_kept_refl.
Qed.

Lemma steady_res_set_allow value : steady (res_set "allow" value).
Proof.
  intros x. unfold res_set. destruct (headersSent _); [ apply evolves_refl | ].
  cbn [snd]. apply evolves_with_response. cbn [res_headers].
  apply headers_kept_override. listed.
Qed.

Lemma steady_res_end rt ctype p : steady (res_end rt ctype p).
Proof.
  intros x. unfold res_end. cbv zeta.
  destruct (headersSent _); [ apply evolves_refl | ].
  assert (headers_kept (res_headers (response x))
            (if Z.eqb (if req_fresh rt (request x) (res_statusCode (response x)) p
                       then 304 else res_statusCode (response x)) 204
                || Z.eqb (if req_fresh rt (request x) (res_statusCode (response x)) p
                          then 304 else res_statusCode (response x)) 304
             then delete "transfer-encoding"
                    (delete "content-length"
                       (delete "content-type"
                          (with_type rt ctype (res_headers (response x)))))
             else if Z.eqb (if req_fresh rt (request x) (res_statusCode (response x)) p
                            then 304 else res_statusCode (response x)) 205
                  then delete "transfer-encoding"
                         (with_type rt ctype (res_headers (response x)))
                  else with_type rt ctype (res_headers (response x)))) as H.
  { destruct (_ || _); [ | destruct (Z.eqb _ 205) ];
      repeat first
        [ apply headers_kept_with_type
        | eapply headers_kept_trans;
          [ | apply headers_kept_entity_removed; listed ] ]. }
  destruct (valid_status _); cbn [snd]; apply evolves_with_response; exact H.
Qed.

Lemma steady_logger rt r : steady (in_world (logger_log rt r)).
Proof.
  intros x. unfold in_world, logger_log.
  destruct (logger_sink rt _ _); cbn [snd world request response log];
    (split; [ repeat split | ]);
    (split; [ now exists [r] | ]);
    (split; [ repeat split | apply headers_kept_refl ]).
Qed.

Lemma steady_uptime : steady (in_world process_uptime).
Proof. intros [rq rs w]. apply evolves_refl. Qed.

Create HintDb steady.
#[local] Hint Resolve steady_ret steady_get_req steady_res_status
  steady_res_set_allow steady_res_end steady_logger steady_uptime : steady.

Ltac steady :=
  repeat first
    [ apply steady_bind; [ | intros ? ]
    | solve [ auto with steady ]
    | progress unfold res_send, res_json, logger_info, logger_warn, logger_error ].

Section Steady.

Variable rt : Runtime.

Lemma steady_request_logger : steady (request_logger rt).
Proof. unfold request_logger. steady. Qed.

Lemma steady_api_health : steady (api_health rt).
Proof. unfold api_health. steady. Qed.

Lemma steady_not_found : steady (not_found rt).
Proof. unfold not_found. steady. Qed.

Lemma steady_error_handler e : steady (error_handler rt e).
Proof. unfold error_handler. steady. Qed.

Lemma steady_sendOptionsResponse options : steady (sendOptionsResponse rt options).
Proof. unfold sendOptionsResponse. steady. Qed.

Lemma steady_express_json : steady (express_json rt).
Proof.
  intros x. unfold express_json.
  destruct (req_raw _); [ | apply evolves_refl ].
  destruct (has_type _ _); [ | apply evolves_refl ].
  destruct (JSON_parse _ _); [ | apply evolves_refl ].
  unfold with_body. cbn [snd response request world].
  split; [ apply same_process_refl | ].
  split; [ exists []; now rewrite app_nil_r | ].
  split; [ repeat split | apply headers_kept_refl ].
Qed.

Lemma steady_express_urlencoded : steady (express_urlencoded rt).
Proof.
  intros x. unfold express_urlencoded.
  destruct (req_raw _); [ | apply evolves_refl ].
  destruct (has_type _ _); [ | apply evolves_refl ].
  unfold with_body. cbn [snd response request world].
  split; [ apply same_process_refl | ].
  split; [ exists []; now rewrite app_nil_r | ].
  split; [ repeat split | apply headers_kept_refl ].
Qed.

End Steady.

Lemma run_middleware_evolves mw x : steady mw -> evolves x (snd (run_middleware mw x)).
Proof.
  intros H. specialize (H x). unfold run_middleware.
  destruct (mw x) as [[[ | e | ] | e] x']; exact H.
Qed.

Lemma run_handler_evolves h x : steady h -> evolves x (snd (run_handler h x)).
Proof.
  intros H. specialize (H x). unfold run_handler.
  destruct (h x) as [[a | e] x']; exact H.
Qed.

Lemma router_handle_evolves rt routes :
  Forall (fun r => steady (route_handler r)) routes ->
  forall path options x, evolves x (snd (router_handle rt routes path options x)).
Proof.
  induction 1 as [ | r routes Hr _ IH ]; intros path options x; cbn [router_handle].
  - destruct options; [ apply evolves_refl | ].
    apply run_handler_evolves, steady_sendOptionsResponse.
  - destruct (path_matches _ _); [ | apply IH ].
    destruct (handles_method _ _); [ now apply run_handler_evolves | ].
    destruct (String.eqb _ _); apply IH.
Qed.

Lemma run_layer_evolves rt l p x : steady_layer l -> evolves x (snd (run_layer rt l p x)).
Proof.
  intros Hl. destruct l as [mw | prefix routes | r | h], p as [e | ];
    cbn [run_layer]; try apply evolves_refl.
  - now apply run_middleware_evolves.
  - destruct (mounted_path _ _); [ now apply router_handle_evolves | apply evolves_refl ].
  - destruct (_ && _); [ now apply run_handler_evolves | apply evolves_refl ].
  - apply run_middleware_evolves, Hl.
Qed.

Lemma finalhandler_evolves p x : evolves x (finalhandler p x).
Proof.
  unfold finalhandler. destruct (headersSent _); [ apply evolves_refl | ].
  apply evolves_with_response. cbn [res_headers].
  eapply headers_kept_trans; [ | apply headers_kept_entity_set; listed ].
  eapply headers_kept_trans; [ | apply headers_kept_override; listed ].
  eapply headers_kept_trans; [ | apply headers_kept_override; listed ].
  eapply headers_kept_trans; [ | apply headers_kept_entity_removed; listed ].
  eapply headers_kept_trans; [ | apply headers_kept_entity_removed; listed ].
  apply headers_kept_entity_removed; listed.
Qed.

Lemma handle_evolves rt stack :
  Forall steady_layer stack -> forall p x, evolves x (handle rt stack p x).
Proof.
  induction 1 as [ | l stack Hl _ IH ]; intros p x; cbn [handle].
  - apply finalhandler_evolves.
  - pose proof (run_layer_evolves rt l p x Hl) as H.
    destruct (run_layer rt l p x) as [[p' | ] x']; cbn [snd] in H; [ | exact H ].
    eapply evolves_trans; [ exact H | apply IH ].
Qed.

(** All layers of [app.js] after [helmet()]. *)
Lemma app_steady rt : Forall steady_layer (tl (app rt)).
Proof.
  unfold app. cbn [tl].
  constructor; [ apply steady_express_json | ].
  constructor; [ apply steady_express_urlencoded | ].
  constructor; [ apply steady_request_logger | ].
  constructor.
  { cbn [steady_layer]. unfold apiRouter.
    constructor; [ unfold api_root; cbn [route_handler]; steady | ].
    constructor; [ apply steady_api_health | ].
    constructor; [ unfold api_data; cbn [route_handler]; steady | constructor ]. }
  constructor; [ unfold root; cbn [steady_layer route_handler]; steady | ].
  constructor; [ apply steady_not_found | ].
  constructor; [ intros e; apply steady_error_handler | constructor ].
Qed.

Lemma serve_after_helmet rt req w :
  serve rt req w = handle rt (tl (app rt)) None (after_helmet rt req w).
Proof. reflexivity. Qed.

Lemma serve_evolves rt req w : evolves (after_helmet rt req w) (serve rt req w).
Proof. rewrite serve_after_helmet. apply handle_evolves, app_steady. Qed.

Lemma serve_same_process rt req w : same_process w (world (serve rt req w)).
Proof. apply (serve_evolves rt req w). Qed.





(** ** A body that does not parse *)

Section Malformed.

Variable rt : Runtime.

Lemma malformed_exchange req w raw m st :
  req_raw req = Some raw ->
  has_type req "application/json" = true ->
  JSON_parse rt raw = SyntaxError m st ->
  serve rt req w =
    snd (error_handler rt {| err_message := m; err_status := Some 400%Z;
                             err_stack := Some st |} (after_helmet rt req w)).
Proof.
  intros Hraw Htype Hparse.
  rewrite serve_after_helmet. unfold app. cbn [tl handle].
  unfold run_layer at 1. unfold run_middleware, express_json.
  cbn [request after_helmet]. rewrite Hraw, Htype, Hparse.
  cbn [handle run_layer]. now apply error_stage_decides.
Qed.

End Malformed.



(** ** From the first layer to the routes *)

Arguments String.append : simpl never.

Section Routing.

Variable rt : Runtime.

(** Up to the request logging middleware, when the body parser lets the
    request through. *)
Lemma reaches_logger req w :
  body_accepted rt req ->
  exists x,
    serve rt req w = handle rt (skipn 3 (app rt)) None x
    /\ same_request req (request x)
    /\ response x = response (after_helmet rt req w)
    /\ world x = w.
Proof.
  intros Hbody. rewrite serve_after_helmet. unfold app. cbn [tl skipn].
  assert (exists x2,
    run_layer rt (Use (express_json rt)) None (after_helmet rt req w) = (Continue None, x2)
    /\ same_request req (request x2)
    /\ response x2 = response (after_helmet rt req w) /\ world x2 = w)
    as (x2 & E2 & R2 & S2 & W2).
  { unfold run_layer, run_middleware, express_json. cbn [request after_helmet].
    destruct (req_raw req) as [raw | ] eqn:Hraw;
      [ destruct (has_type req "application/json") eqn:Htype;
        [ destruct (Hbody raw Hraw Htype) as (v & ->) | ] | ];
      eexists; (split; [ reflexivity | ]); repeat split; cbn; congruence. }
  rewrite (handle_continue _ _ _ _ _ _ _ E2).
  assert (exists x3,
    run_layer rt (Use (express_urlencoded rt)) None x2 = (Continue None, x3)
    /\ same_request req (request x3)
    /\ response x3 = response (after_helmet rt req w) /\ world x3 = w)
    as (x3 & E3 & R3 & S3 & W3).
  { unfold run_layer, run_middleware, express_urlencoded.
    destruct (req_raw (request x2)); [ destruct (has_type (request x2) _) | ];
      eexists; (split; [ reflexivity | ]); repeat split; cbn;
      solve [ apply R2 | assumption ]. }
  rewrite (handle_continue _ _ _ _ _ _ _ E3).
  exists x3. repeat split; solve [ assumption | apply R3 ].
Qed.

Lemma access_record_same_request r r' :
  same_request r r' -> access_record r' = access_record r.
Proof.
  intros (Rm & Ru & Ri & Rh & _). unfold access_record, req_get.
  now rewrite Rm, Ru, Ri, Rh.
Qed.

Lemma request_logger_steps x :
  run_layer rt (Use (request_logger rt)) None x =
    (match logger_sink rt (log (world x)) (access_record (request x)) with
     | None => Continue None
     | Some e => Continue (Some e)
     end,
     {| request := request x; response := response x;
        world := logged (access_record (request x)) (world x) |}).
Proof.
  unfold run_layer, run_middleware, request_logger, access_record, logged.
  unfold_js. cbn [request response world fst snd].
  destruct (logger_sink rt _ _); reflexivity.
Qed.

(** When the body parser and the logger let the request through, it reaches
    the routes with nothing written and the access record logged. *)
Lemma reaches_routes req w :
  body_accepted rt req ->
  accepts rt (access_record req) ->
  exists x,
    serve rt req w = handle rt (skipn 4 (app rt)) None x
    /\ same_request req (request x)
    /\ response x = response (after_helmet rt req w)
    /\ world x = logged (access_record req) w.
Proof.
  intros Hbody Hacc.
  destruct (reaches_logger req w Hbody) as (x & E & Rx & Sx & Wx).
  exists {| request := request x; response := response x;
            world := logged (access_record req) w |}.
  split; [ | repeat split; solve [ assumption | apply Rx ] ].
  rewrite E. unfold app. cbn [skipn]. apply handle_continue.
  rewrite request_logger_steps, (access_record_same_request _ _ Rx), Wx, Hacc.
  reflexivity.
Qed.

Lemma reaches_routes_ready req w :
  body_accepted rt req ->
  accepts rt (access_record req) ->
  exists x,
    serve rt req w = handle rt (skipn 4 (app rt)) None x
    /\ same_request req (request x) /\ ready x
    /\ world x = logged (access_record req) w.
Proof.
  intros Hbody Hacc.
  destruct (reaches_routes req w Hbody Hacc) as (x & E & Rx & Sx & Wx).
  exists x. split; [ exact E | ]. split; [ exact Rx | ].
  split; [ | exact Wx ]. unfold ready. now rewrite Sx.
Qed.

Lemma router_handle_unanswered routes path x :
  router_answers routes (req_method (request x)) path = false ->
  forall options,
    router_handle rt routes path options x = router_handle rt [] path options x.
Proof.
  induction routes as [ | r routes IH ]; intros H options; [ reflexivity | ].
  cbn [router_answers existsb] in H. apply orb_false_elim in H as [Hr H].
  cbn [router_handle].
  destruct (path_matches _ _); [ | now apply IH ].
  cbn [andb] in Hr. apply orb_false_elim in Hr as [-> ->]. now apply IH.
Qed.

(** An unrouted request passes the router and the root route untouched. *)
Lemma unrouted_falls_through req x :
  routed rt req = false ->
  same_request req (request x) ->
  handle rt (skipn 4 (app rt)) None x = handle rt (skipn 6 (app rt)) None x.
Proof.
  intros Hroute (Rm & Ru & _). unfold routed, app in *.
  cbn [existsb layer_answers orb skipn] in *.
  apply orb_false_elim in Hroute as [Hapi Hroute].
  apply orb_false_elim in Hroute as [Hroot _].
  cbn [handle]. unfold run_layer at 1. rewrite Ru.
  assert (match mounted_path "/api" (pathname rt (req_originalUrl req)) with
          | Some inner => router_handle rt (apiRouter rt) inner [] x
          | None => (Continue None, x)
          end = (Continue None, x)) as ->.
  { revert Hapi. destruct (mounted_path _ _); intros Hapi; [ | reflexivity ].
    rewrite router_handle_unanswered by now rewrite Rm. reflexivity. }
  unfold run_layer at 1. cbn [route_path route_method route_handler].
  unfold route_hits in Hroot. cbn [route_path route_method] in Hroot.
  rewrite Ru, Rm, Hroot. reflexivity.
Qed.

Lemma not_found_record_same_request r r' :
  same_request r r' -> not_found_record r' = not_found_record r.
Proof. intros (Rm & Ru & _). unfold not_found_record. now rewrite Rm, Ru. Qed.

Lemma error_record_same_request err r r' :
  same_request r r' -> error_record err r' = error_record err r.
Proof. intros (Rm & Ru & _). unfold error_record. now rewrite Rm, Ru. Qed.

(** What the not-found and error middleware make of an unanswered request. *)
Lemma not_found_exchange x :
  unwritten x ->
  accepts rt (not_found_record (request x)) ->
  handle rt (skipn 6 (app rt)) None x =
    snd (error_handler rt
      (set_status (new_Error rt ("Not Found - " +:+ req_originalUrl (request x))) 404)
      {| request := request x; response := response x;
         world := logged (not_found_record (request x)) (world x) |}).
Proof.
  intros Hx Hacc. unfold app. cbn [skipn].
  erewrite handle_continue; [ now rewrite error_stage_decides | ].
  unfold run_layer, run_middleware, not_found. unfold_js.
  cbn [request response world fst snd].
  fold (not_found_record (request x)). rewrite Hacc. reflexivity.
Qed.

(** The whole exchange of a request that no route answers. *)
Lemma unrouted_exchange req w :
  routed rt req = false ->
  body_accepted rt req ->
  accepts rt (access_record req) ->
  accepts rt (not_found_record req) ->
  exists x,
    same_request req (request x)
    /\ response x = response (after_helmet rt req w)
    /\ serve rt req w =
         snd (error_handler rt
           (set_status (new_Error rt ("Not Found - " +:+ req_originalUrl req)) 404)
           {| request := request x; response := response x;
              world := logged (not_found_record req) (logged (access_record req) w) |}).
Proof.
  intros Hroute Hbody Hacc Hnf.
  destruct (reaches_routes req w Hbody Hacc) as (x & E & Rx & Sx & Wx).
  exists x. split; [ exact Rx | ]. split; [ exact Sx | ].
  assert (unwritten x) as Hx by (unfold unwritten; now rewrite Sx).
  pose proof (not_found_record_same_request _ _ Rx) as HR.
  assert (req_originalUrl (request x) = req_originalUrl req) as Hu by apply Rx.
  rewrite E, (unrouted_falls_through req x Hroute Rx).
  rewrite not_found_exchange by (assumption || now rewrite HR).
  now rewrite HR, Hu, Wx.
Qed.

End Routing.




(** ** The process: clock and waiting exits *)

Section ProcessFacts.

Variable rt : Runtime.

Lemma run_exits_spec codes w :
  let w' := run_exits codes w in
  log w' = log w /\ clock w' = clock w /\ boot w' = boot w
  /\ connections w' = connections w /\ on_close w' = on_close w
  /\ armed w' = armed w
  /\ exit_code w' = match exit_code w with
                    | Some c => Some c
                    | None => head codes
                    end.
Proof.
  unfold run_exits. revert w. induction codes as [ | c codes IH ]; intros w; cbn.
  - repeat split. now destruct (exit_code w).
  - destruct w as [l t b n o a [x | ]]; cbn;
      match goal with |- context [fold_left _ codes ?w0] => apply (IH w0) end.
Qed.

Lemma run_exits_exit codes w :
  exit_code (run_exits codes w) =
    match exit_code w with
    | Some c => Some c
    | None => head codes
    end.
Proof. apply run_exits_spec. Qed.

Lemma run_exits_connections codes w :
  connections (run_exits codes w) = connections w.
Proof. apply run_exits_spec. Qed.

Lemma emit_close_sound w : sound w -> sound (emit_close_if_drained w).
Proof.
  intros (Hc & Hcb & Ha). unfold emit_close_if_drained.
  destruct (connections w); [ | now repeat split ].
  match goal with |- sound (run_exits ?l ?w0) =>
    destruct (run_exits_spec l w0) as (_ & C & B & _ & O & A & _) end.
  cbn in *. split; [ now rewrite C, B | ].
  split; [ rewrite O; constructor | now rewrite A ].
Qed.

Lemma graceful_exit_sound w : sound w -> sound (graceful_exit w).
Proof.
  intros (Hc & Hcb & Ha). unfold graceful_exit.
  match goal with |- sound (run_exits ?l ?w0) =>
    destruct (run_exits_spec l w0) as (_ & C & B & _ & O & A & _) end.
  cbn in *. split; [ now rewrite C, B | ].
  split; [ now rewrite O | rewrite A; constructor ].
Qed.

Lemma logger_sound r w : sound w -> sound (snd (logger_log rt r w)).
Proof.
  intros H. unfold logger_log. destruct (logger_sink rt _ _); exact H.
Qed.

Lemma process_exit_sound code w : sound w -> sound (snd (process_exit code w)).
Proof.
  intros H. unfold process_exit. cbn. destruct (exit_code w); exact H.
Qed.

Lemma server_close_1_sound w : sound w -> sound (snd (server_close 1 w)).
Proof.
  intros (Hc & Hcb & Ha). unfold server_close. cbn [snd].
  apply emit_close_sound. repeat split; cbn; try assumption.
  apply Forall_app. split; [ assumption | now constructor ].
Qed.

Lemma arm_exit_1_sound w : sound w -> sound (snd (arm_exit 1 w)).
Proof.
  intros (Hc & Hcb & Ha). unfold arm_exit. repeat split; cbn; try assumption.
  apply Forall_app. split; [ assumption | now constructor ].
Qed.

Lemma then_keeps (P : World -> Prop) (m k : M World unit) w :
  (forall w, P w -> P (snd (m w))) ->
  (forall w, P w -> P (snd (k w))) ->
  P w -> P (snd (bind m (fun _ => k) w)).
Proof.
  intros Hm Hk Hw. unfold bind. specialize (Hm w Hw).
  destruct (m w) as [[[] | e] w']; cbn in *; [ now apply Hk | exact Hm ].
Qed.

Lemma winston_handler_sound kind err w :
  sound w -> sound (snd (winston_handler rt kind err w)).
Proof.
  intros Hw. unfold winston_handler. apply then_keeps;
    [ intros; now apply logger_sound | intros; now apply arm_exit_1_sound | exact Hw ].
Qed.

Lemma on_uncaughtException_sound err w :
  sound w -> sound (snd (on_uncaughtException rt err w)).
Proof.
  intros Hw. unfold on_uncaughtException. apply then_keeps;
    [ intros; unfold logger_error; now apply logger_sound
    | intros; now apply server_close_1_sound | exact Hw ].
Qed.

Lemma on_unhandledRejection_sound reason w :
  sound w -> sound (snd (on_unhandledRejection rt reason w)).
Proof.
  intros Hw. unfold on_unhandledRejection. apply then_keeps;
    [ intros; unfold logger_error; now apply logger_sound
    | intros; now apply server_close_1_sound | exact Hw ].
Qed.

Lemma on_error_sound code err w : sound w -> sound (snd (on_error rt code err w)).
Proof.
  intros Hw. unfold on_error. destruct (String.eqb _ _);
    (apply then_keeps;
     [ intros; unfold logger_error; now apply logger_sound
     | intros; now apply process_exit_sound | assumption ]).
Qed.

Lemma uncaught_sound err w : sound w -> sound (uncaught rt err w).
Proof.
  intros Hw. unfold uncaught.
  assert (sound (snd ((winston_handler rt "uncaughtException" err ;;
                       on_uncaughtException rt err)%js w))) as H.
  { apply then_keeps;
      [ intros; now apply winston_handler_sound
      | intros; now apply on_uncaughtException_sound | exact Hw ]. }
  destruct ((winston_handler rt "uncaughtException" err ;;
             on_uncaughtException rt err)%js w) as [[[] | e] w']; cbn [snd] in H;
    [ exact H | now apply process_exit_sound ].
Qed.

Lemma callback_sound (m : M World unit) w :
  (forall w, sound w -> sound (snd (m w))) ->
  sound w -> sound (callback rt m w).
Proof.
  intros Hm Hw. unfold callback. specialize (Hm w Hw).
  destruct (m w) as [[[] | e] w']; cbn [snd] in Hm;
    [ exact Hm | now apply uncaught_sound ].
Qed.

Lemma on_fault_sound f w : sound w -> sound (on_fault rt f w).
Proof.
  intros Hw. destruct f as [code err | reason | err]; cbn [on_fault].
  - apply callback_sound; [ intros; now apply on_error_sound | exact Hw ].
  - apply callback_sound; [ | exact Hw ].
    intros w' Hw'. apply then_keeps;
      [ intros; now apply winston_handler_sound
      | intros; now apply on_unhandledRejection_sound | exact Hw' ].
  - now apply uncaught_sound.
Qed.

Lemma step_sound w ev : sound w -> sound (step rt w ev).
Proof.
  intros Hw. unfold step. destruct (exit_code w) eqn:E; [ exact Hw | ].
  destruct ev as [ | d | req | | | f | ].
  - apply callback_sound; [ | exact Hw ].
    intros w' Hw'. unfold on_listening, logger_info. now apply logger_sound.
  - destruct Hw as (Hc & Hcb & Ha). repeat split; cbn; try assumption. lia.
  - destruct Hw as (Hc & Hcb & Ha).
    destruct (serve_same_process rt req w) as (C & B & _ & O & A & _).
    repeat split; [ now rewrite C, B | now rewrite O | now rewrite A ].
  - destruct (on_close w); [ | exact Hw ].
    destruct Hw as (Hc & Hcb & Ha). now repeat split.
  - apply emit_close_sound. destruct Hw as (Hc & Hcb & Ha). now repeat split.
  - now apply on_fault_sound.
  - now apply graceful_exit_sound.
Qed.

Lemma run_sound evs w : sound w -> sound (run rt evs w).
Proof.
  revert w. induction evs as [ | ev evs IH ]; intros w Hw; [ exact Hw | ].
  cbn. apply IH. now apply step_sound.
Qed.

Lemma boot_world_sound t0 : sound (boot_world t0).
Proof. repeat split; cbn; [ lia | constructor | constructor ]. Qed.

End ProcessFacts.

(** ** The health route *)

Section Health.

Variable rt : Runtime.

(** The health handler returns on an unanswered request, when its log
    record is taken. *)
Lemma api_health_returns x :
  unwritten x ->
  accepts rt health_record ->
  fst (api_health rt x) = Returned tt
  /\ log (world (snd (api_health rt x))) = (log (world x) ++ [health_record])%list.
Proof.
  intros Hx Hacc. rewrite api_health_steps, Hacc.
  match goal with |- context [res_end rt ?c ?p ?y] =>
    destruct (res_end_cases rt c p y Hx) as [(code & hs & _ & _ & ->) | (Hn & _)]
  end; [ split; reflexivity | discriminate Hn ].
Qed.

(** Its answer to a request that carries no cache validator. *)
Lemma api_health_response x :
  unwritten x ->
  accepts rt health_record ->
  conditional (request x) = false ->
  res_statusCode (response (snd (api_health rt x))) = 200%Z
  /\ res_body (response (snd (api_health rt x))) =
       Some (JsonText [("status", JStr "healthy");
                       ("uptime", JNum (clock (world x) - boot (world x)))]).
Proof.
  intros Hx Hacc Hc. rewrite api_health_steps, Hacc, res_end_plain.
  - split; reflexivity.
  - exact Hx.
  - unfold goes_out. cbn [request response res_statusCode].
    now rewrite unconditional_is_stale.
Qed.

Lemma health_route_answers req x :
  req_method req = "GET" ->
  pathname rt (req_originalUrl req) = "/api/health" ->
  same_request req (request x) ->
  fst (api_health rt x) = Returned tt ->
  handle rt (skipn 4 (app rt)) None x = snd (api_health rt x).
Proof.
  intros Hm Hp (Rm & Ru & _) Hret. unfold app. cbn [skipn].
  apply handle_done.
  unfold run_layer. rewrite Ru, Hp.
  change (mounted_path "/api" "/api/health") with (Some "/health").
  unfold apiRouter. cbn [router_handle route_path route_method route_handler].
  change (path_matches "/" "/health") with false.
  change (path_matches "/health" "/health") with true.
  rewrite Rm, Hm.
  change (handles_method "GET" "GET") with true. cbn iota.
  now apply run_handler_returns.
Qed.

Lemma same_request_conditional r r' :
  same_request r r' -> conditional r' = conditional r.
Proof. intros (_ & _ & _ & Rh & _). unfold conditional. now rewrite Rh. Qed.

End Health.




(** ** Fatal faults *)

Section Runs.

Variable rt : Runtime.

Lemma run_exited evs w c : exit_code w = Some c -> run rt evs w = w.
Proof.
  intros E. induction evs as [ | ev evs IH ]; [ reflexivity | ].
  cbn. unfold step at 2. rewrite E. exact IH.
Qed.

Lemma run_cons ev evs w : run rt (ev :: evs) w = run rt evs (step rt w ev).
Proof. reflexivity. Qed.

(** A closing listener exits with code 1 when its last connection ends. *)
Lemma closing_settles n : forall w c cs,
  exit_code w = None ->
  connections w = S n ->
  on_close w = c :: cs ->
  c = 1%Z ->
  exit_code (run rt (repeat ConnectionClosed (S n)) w) = Some 1%Z.
Proof.
  induction n as [ | n IH ]; intros w c cs He Hn Ho Hc.
  - cbn [repeat run fold_left]. unfold step. rewrite He.
    unfold emit_close_if_drained, set_connections. rewrite Hn.
    cbn [pred connections on_close].
    rewrite run_exits_exit. cbn [exit_code]. now rewrite He, Ho, Hc.
  - change (repeat ConnectionClosed (S (S n)))
      with (ConnectionClosed :: repeat ConnectionClosed (S n)).
    rewrite run_cons. unfold step. rewrite He.
    unfold emit_close_if_drained, set_connections. rewrite Hn.
    cbn [pred connections].
    eapply (IH _ c cs); cbn; first [ eassumption | reflexivity ].
Qed.

Lemma server_close_settles w :
  sound w -> exit_code w = None ->
  exit_code (settle rt (snd (server_close 1 w))) = Some 1%Z.
Proof.
  intros (_ & Hcb & _) He. unfold settle, server_close. cbn [snd].
  unfold emit_close_if_drained. cbn [connections on_close].
  destruct (connections w) as [ | n ] eqn:Hn.
  - rewrite run_exits_connections. cbn [connections repeat run fold_left].
    rewrite run_exits_exit. cbn [exit_code]. rewrite He.
    destruct (on_close w) as [ | c cs ]; [ reflexivity | ].
    cbn. inversion Hcb as [ | ? ? Hc _ ]. now rewrite Hc.
  - cbn [connections].
    destruct (on_close w) as [ | c cs ] eqn:Ho.
    + eapply (closing_settles n _ 1%Z []); cbn; first [ eassumption | reflexivity ].
    + inversion Hcb as [ | ? ? Hc _ ].
      eapply (closing_settles n _ c (cs ++ [1%Z])); cbn;
        first [ eassumption | reflexivity ].
Qed.

Lemma head_of_ones (l : list Z) :
  Forall (fun c => c = 1%Z) l -> head (l ++ [1%Z]) = Some 1%Z.
Proof. intros [ | c cs -> _ ]; reflexivity. Qed.

(** [server.close] touches neither the log nor the armed exits. *)
Lemma server_close_keeps code w :
  log (snd (server_close code w)) = log w
  /\ armed (snd (server_close code w)) = armed w.
Proof.
  unfold server_close, emit_close_if_drained. cbn [snd connections on_close].
  destruct (connections w); [ | split; reflexivity ].
  match goal with |- context [run_exits ?l ?w0] =>
    destruct (run_exits_spec l w0) as (L & _ & _ & _ & _ & A & _) end.
  split; assumption.
Qed.

Lemma process_exit_log code w : log (snd (process_exit code w)) = log w.
Proof. unfold process_exit. cbn. now destruct (exit_code w). Qed.

(** The exit code once [server.close(() => process.exit(1))] has run. *)
Lemma server_close_exits w :
  sound w -> exits_with_1 w -> exits_with_1 (snd (server_close 1 w)).
Proof.
  intros (_ & Hcb & _) He. unfold server_close, emit_close_if_drained.
  cbn [snd connections on_close].
  destruct (connections w); [ | exact He ].
  unfold exits_with_1. rewrite run_exits_exit. cbn [exit_code].
  destruct He as [-> | ->]; [ right | now right ].
  now apply head_of_ones.
Qed.

Lemma emit_close_exits w :
  sound w -> exits_with_1 w -> exits_with_1 (emit_close_if_drained w).
Proof.
  intros (_ & Hcb & _) He. unfold emit_close_if_drained.
  destruct (connections w); [ | exact He ].
  unfold exits_with_1. rewrite run_exits_exit. cbn [exit_code].
  destruct He as [-> | ->]; [ | now right ].
  destruct Hcb as [ | c cs -> _ ]; [ now left | now right ].
Qed.

Lemma graceful_exit_exits w :
  sound w -> exits_with_1 w -> exits_with_1 (graceful_exit w).
Proof.
  intros (_ & _ & Ha) He. unfold graceful_exit, exits_with_1.
  rewrite run_exits_exit. cbn [exit_code].
  destruct He as [-> | ->]; [ | now right ].
  destruct Ha as [ | c cs -> _ ]; [ now left | now right ].
Qed.

End Runs.

Section Fatal.

Variable rt : Runtime.
Hypothesis Hlog : takes_errors rt.

Lemma error_record_taken r w :
  level r = error -> logger_log rt r w = (Returned tt, logged r w).
Proof.
  intros Hr. unfold logger_log, logged. now rewrite (Hlog r Hr (log w)).
Qed.

(** What the listeners of [uncaughtException] do, winston's and then that
    of [app.js]. *)
Lemma uncaught_taken err w :
  uncaught rt err w =
    snd (server_close 1
           (logged (exception_record err)
              (snd (arm_exit 1 (logged (winston_info "uncaughtException" err) w))))).
Proof.
  unfold uncaught, winston_handler, on_uncaughtException, logger_error, bind.
  rewrite error_record_taken by reflexivity. cbn [arm_exit fst snd].
  fold (exception_record err).
  now rewrite error_record_taken by reflexivity.
Qed.

Lemma rejection_taken reason w :
  on_fault rt (Rejection reason) w =
    snd (server_close 1
           (logged (rejection_record reason)
              (snd (arm_exit 1 (logged (winston_info "unhandledRejection" reason) w))))).
Proof.
  unfold on_fault, callback, winston_handler, on_unhandledRejection, logger_error, bind.
  rewrite error_record_taken by reflexivity. cbn [arm_exit fst snd].
  fold (rejection_record reason).
  now rewrite error_record_taken by reflexivity.
Qed.

Lemma bind_failure_taken code err w :
  on_fault rt (BindFailure code err) w =
    snd (process_exit 1 (logged (bind_failure_record rt code err) w)).
Proof.
  unfold on_fault, callback, on_error, bind_failure_record, logger_error, bind.
  destruct (String.eqb code _);
    now rewrite error_record_taken by reflexivity.
Qed.

Lemma bind_failure_record_level code err :
  level (bind_failure_record rt code err) = error.
Proof. unfold bind_failure_record. now destruct (String.eqb code _). Qed.

(** Every fault is logged at level [error]. *)
Lemma on_fault_logs f w :
  exists l,
    log (on_fault rt f w) = (log w ++ l)%list
    /\ l <> [] /\ Forall (fun r => level r = error) l.
Proof.
  destruct f as [code err | reason | err].
  - exists [bind_failure_record rt code err].
    rewrite bind_failure_taken, process_exit_log.
    split; [ reflexivity | ]. split; [ discriminate | ].
    constructor; [ apply bind_failure_record_level | constructor ].
  - exists [winston_info "unhandledRejection" reason; rejection_record reason].
    rewrite rejection_taken.
    rewrite (proj1 (server_close_keeps _ _)). cbn [log logged arm_exit snd].
    split; [ now rewrite <- app_assoc | ]. split; [ discriminate | ].
    repeat constructor.
  - exists [winston_info "uncaughtException" err; exception_record err].
    cbn [on_fault]. rewrite uncaught_taken.
    rewrite (proj1 (server_close_keeps _ _)). cbn [log logged arm_exit snd].
    split; [ now rewrite <- app_assoc | ]. split; [ discriminate | ].
    repeat constructor.
Qed.

Lemma logged_sound r w : sound w -> sound (logged r w).
Proof. intros H. exact H. Qed.

(** The state in which [server.close] is called after a fault. *)
Lemma closing_state r r' w :
  sound w -> exit_code w = None ->
  sound (logged r' (snd (arm_exit 1 (logged r w))))
  /\ exit_code (logged r' (snd (arm_exit 1 (logged r w)))) = None
  /\ armed (logged r' (snd (arm_exit 1 (logged r w)))) = (armed w ++ [1%Z])%list.
Proof.
  intros Hw He. split; [ | split; [ exact He | reflexivity ] ].
  apply logged_sound, arm_exit_1_sound, logged_sound, Hw.
Qed.

(** After a fault the process exits with code 1 once its connections have
    come to their end. *)
Lemma on_fault_settles f w :
  sound w -> exit_code w = None ->
  exit_code (settle rt (on_fault rt f w)) = Some 1%Z.
Proof.
  intros Hw He. destruct f as [code err | reason | err].
  - rewrite bind_failure_taken. unfold settle.
    erewrite run_exited; unfold process_exit; cbn; rewrite He; reflexivity.
  - rewrite rejection_taken.
    apply server_close_settles; eapply closing_state; eassumption.
  - cbn [on_fault]. rewrite uncaught_taken.
    apply server_close_settles; eapply closing_state; eassumption.
Qed.

Lemma closing_finishes r r' w :
  sound w -> exit_code w = None ->
  exit_code (step rt (snd (server_close 1 (logged r' (snd (arm_exit 1 (logged r w))))))
               HandlersFinished) = Some 1%Z.
Proof.
  intros Hw He.
  destruct (closing_state r r' w Hw He) as (Hs & Hx & Ha).
  set (w' := logged r' (snd (arm_exit 1 (logged r w)))) in *.
  pose proof (server_close_exits w' Hs (or_introl Hx)) as Hexit.
  unfold step. destruct Hexit as [Hnone | Hone].
  - rewrite Hnone. unfold graceful_exit. rewrite run_exits_exit. cbn [exit_code].
    rewrite Hnone, (proj2 (server_close_keeps _ _)), Ha.
    apply head_of_ones, Hw.
  - now rewrite Hone.
Qed.

(** After a fault the process exits with code 1 once winston's handlers
    have finished. *)
Lemma on_fault_finishes f w :
  sound w -> exit_code w = None ->
  exit_code (step rt (on_fault rt f w) HandlersFinished) = Some 1%Z.
Proof.
  intros Hw He. destruct f as [code err | reason | err].
  - rewrite bind_failure_taken. unfold step, process_exit. cbn. rewrite He. reflexivity.
  - rewrite rejection_taken. now apply closing_finishes.
  - cbn [on_fault]. rewrite uncaught_taken. now apply closing_finishes.
Qed.

Lemma uncaught_exits err w :
  sound w -> exits_with_1 w -> exits_with_1 (uncaught rt err w).
Proof.
  intros Hw He. rewrite uncaught_taken.
  apply server_close_exits; [ | exact He ].
  apply logged_sound, arm_exit_1_sound, logged_sound, Hw.
Qed.

Lemma on_fault_exits f w :
  sound w -> exits_with_1 w -> exits_with_1 (on_fault rt f w).
Proof.
  intros Hw He. destruct f as [code err | reason | err].
  - rewrite bind_failure_taken. unfold process_exit, exits_with_1 in *.
    cbn [snd logged exit_code].
    destruct He as [E | E]; rewrite E; cbn; auto.
  - rewrite rejection_taken.
    apply server_close_exits; [ | exact He ].
    apply logged_sound, arm_exit_1_sound, logged_sound, Hw.
  - now apply uncaught_exits.
Qed.

Lemma step_exits w ev :
  sound w -> exits_with_1 w -> exits_with_1 (step rt w ev).
Proof.
  intros Hw He. unfold step. destruct (exit_code w) eqn:E; [ exact He | ].
  destruct ev as [ | d | req | | | f | ].
  - unfold callback, on_listening, logger_info, logger_log.
    destruct (logger_sink rt _ _); [ | exact He ].
    now apply uncaught_exits.
  - exact He.
  - unfold exits_with_1.
    destruct (serve_same_process rt req w) as (_ & _ & _ & _ & _ & ->). exact He.
  - destruct (on_close w); exact He.
  - apply emit_close_exits; [ | exact He ].
    destruct Hw as (Hc & Hcb & Ha). now repeat split.
  - now apply on_fault_exits.
  - now apply graceful_exit_exits.
Qed.

Lemma run_exits_with_1 evs w :
  sound w -> exits_with_1 w -> exits_with_1 (run rt evs w).
Proof.
  revert w. induction evs as [ | ev evs IH ]; intros w Hw He; [ exact He | ].
  cbn. apply IH; [ now apply step_sound | now apply step_exits ].
Qed.

End Fatal.




(** ** The scenarios of the specification, run *)

Example scenario_root :
  res_statusCode (response (serve Sample.development (Sample.get "/") Sample.world0)) = 200%Z
  /\ res_body (response (serve Sample.development (Sample.get "/") Sample.world0)) =
       Some (Text "Welcome to the Node.js application! Check /api for API endpoints, or /api/health for status.").
Proof. split; reflexivity. Qed.

Example scenario_health :
  res_statusCode (response (serve Sample.development (Sample.get "/api/health")
                              (run Sample.development [Listening; Tick 7] (boot_world 100)))) = 200%Z
  /\ res_body (response (serve Sample.development (Sample.get "/api/health")
                           (run Sample.development [Listening; Tick 7] (boot_world 100)))) =
       Some (JsonText [("status", JStr "healthy"); ("uptime", JNum 7)]).
Proof. split; reflexivity. Qed.

Example scenario_nonexistent :
  res_statusCode (response (serve Sample.development (Sample.get "/nonexistent") Sample.world0)) = 404%Z
  /\ res_body (response (serve Sample.development (Sample.get "/nonexistent") Sample.world0)) =
       Some (JsonText [("message", JStr "Not Found - /nonexistent");
                       ("stack", JStr "Error: Not Found - /nonexistent")]).
Proof. split; reflexivity. Qed.

Example scenario_port_in_use :
  let w := run Sample.development
             [Fatal (BindFailure "EADDRINUSE"
                {| err_message := "listen EADDRINUSE: address already in use :::3000";
                   err_status := None; err_stack := None |})] (boot_world 0) in
  exit_code w = Some 1%Z
  /\ map msg (log w) =
       ["Port 3000 is already in use. Please stop the other process or choose a different port."].
Proof. split; reflexivity. Qed.

(** A fragment is not part of the path: the route is found. *)
Example scenario_fragment :
  res_statusCode (response (serve Sample.development (Sample.get "/api/data#top") Sample.world0)) = 200%Z
  /\ res_body (response (serve Sample.development (Sample.get "/api/data#top") Sample.world0)) =
       Some (JsonText [("message", JStr "This is some protected data!")]).
Proof. split; reflexivity. Qed.

(** * Further properties of [app.js] *)

(** ** Who answers, and with what *)

(** X1: every request is answered exactly once, and in one of four ways:
    with status 200 and one of the five fixed bodies of the routes (the two
    greetings, the health object, the data object, and the list [GET,HEAD]
    of the router's reply to [OPTIONS]); with no body, under a status that
    carries none (304 for a client whose copy is fresh); with the status
    and the envelope of some error, by the error middleware; or with the
    page of Express's final handler. *)
Theorem every_answer_is_classified rt req w :
  res_writes (response (serve rt req w)) = 1%nat
  /\ ((res_statusCode (response (serve rt req w)) = 200%Z
       /\ exists p, res_body (response (serve rt req w)) = Some p /\ route_payload p)
      \/ (carries_body (res_statusCode (response (serve rt req w))) = false
          /\ res_body (response (serve rt req w)) = Some Empty)
      \/ (exists e,
            res_statusCode (response (serve rt req w)) = status_of e
            /\ res_body (response (serve rt req w)) = Some (error_payload rt e))
      \/ (exists p,
            res_body (response (serve rt req w)) =
              Some (FinalPage (res_statusCode (response (serve rt req w))) p))).
Proof. apply serve_answers. Qed.

(** X2: in production no response of the application, whatever the request
    and whatever fails on the way, has a [stack] field that holds anything
    but the redaction marker. *)
Theorem no_stack_leaves_in_production rt req w o :
  is_production rt = true ->
  res_body (response (serve rt req w)) = Some (JsonText o) ->
  field "stack" o = None \/ field "stack" o = Some (JStr redaction_marker).
Proof.
  intros Hprod Hbody.
  destruct (serve_answers rt req w)
    as (_ & [(_ & p & Hp & Hroute)
            | [(_ & He) | [(e & _ & He) | (p & He)]]]);
    rewrite He in Hbody || rewrite Hp in Hbody; try discriminate Hbody.
  - injection Hbody as ->.
    destruct Hroute as [H | [H | [(up & H) | [H | H]]]];
      try discriminate H; injection H as ->; now left.
  - unfold error_payload in Hbody. rewrite Hprod in Hbody.
    injection Hbody as <-. now right.
Qed.

Lemma no_stack_leaves_in_production_witness :
  is_production Sample.production = true
  /\ res_body (response (serve Sample.production (Sample.get "/missing") Sample.world0)) =
       Some (JsonText [("message", JStr "Not Found - /missing");
                       ("stack", JStr redaction_marker)])
  /\ (field "stack" [("message", JStr "Not Found - /missing");
                     ("stack", JStr redaction_marker)] = None
      \/ field "stack" [("message", JStr "Not Found - /missing");
                        ("stack", JStr redaction_marker)] = Some (JStr redaction_marker)).
Proof.
  split; [ reflexivity | ]. split; [ reflexivity | ].
  apply (no_stack_leaves_in_production Sample.production (Sample.get "/missing")
           Sample.world0); reflexivity.
Defined.

(** ** The routes *)

Section Routes.

Variable rt : Runtime.

(** The first write, with status 200, to a client that sent no cache
    validator. *)
Lemma res_end_sends ctype p x :
  ready x ->
  conditional (request x) = false ->
  fst (res_end rt ctype p x) = Returned tt
  /\ res_statusCode (response (snd (res_end rt ctype p x))) = 200%Z
  /\ res_body (response (snd (res_end rt ctype p x))) = Some p.
Proof.
  intros [Hw Hs] Hc. rewrite res_end_plain; [ now rewrite Hs | exact Hw | ].
  rewrite Hs. unfold goes_out. now rewrite unconditional_is_stale.
Qed.

Lemma res_end_returns ctype p x :
  ready x -> fst (res_end rt ctype p x) = Returned tt.
Proof. intros Hx. now destruct (res_end_ready rt ctype p x Hx) as (hs & ->). Qed.

Lemma data_route_answers req x :
  req_method req = "GET" ->
  pathname rt (req_originalUrl req) = "/api/data" ->
  same_request req (request x) ->
  ready x ->
  handle rt (skipn 4 (app rt)) None x = snd (api_data rt x).
Proof.
  intros Hm Hp (Rm & Ru & _) Hx. unfold app. cbn [skipn].
  apply handle_done. unfold run_layer. rewrite Ru, Hp.
  change (mounted_path "/api" "/api/data") with (Some "/data").
  unfold apiRouter. cbn [router_handle route_path route_method route_handler].
  change (path_matches "/" "/data") with false.
  change (path_matches "/health" "/data") with false.
  change (path_matches "/data" "/data") with true.
  rewrite Rm, Hm. change (handles_method "GET" "GET") with true. cbn iota.
  apply run_handler_returns. now apply res_end_returns.
Qed.

Lemma api_root_route_answers req x :
  req_method req = "GET" ->
  pathname rt (req_originalUrl req) = "/api"
  \/ pathname rt (req_originalUrl req) = "/api/" ->
  same_request req (request x) ->
  ready x ->
  handle rt (skipn 4 (app rt)) None x = snd (api_root rt x).
Proof.
  intros Hm Hp (Rm & Ru & _) Hx. unfold app. cbn [skipn].
  apply handle_done. unfold run_layer. rewrite Ru.
  assert (mounted_path "/api" (pathname rt (req_originalUrl req)) = Some "/") as ->
    by (destruct Hp as [-> | ->]; reflexivity).
  unfold apiRouter. cbn [router_handle route_path route_method route_handler].
  change (path_matches "/" "/") with true.
  rewrite Rm, Hm. change (handles_method "GET" "GET") with true. cbn iota.
  apply run_handler_returns. now apply res_end_returns.
Qed.

Lemma root_route_answers req x :
  req_method req = "GET" ->
  pathname rt (req_originalUrl req) = "/" ->
  same_request req (request x) ->
  ready x ->
  handle rt (skipn 4 (app rt)) None x = snd (root rt x).
Proof.
  intros Hm Hp (Rm & Ru & _) Hx. unfold app. cbn [skipn].
  erewrite handle_continue.
  2:{ unfold run_layer. rewrite Ru, Hp.
      change (mounted_path "/api" "/") with (@None string). reflexivity. }
  apply handle_done. unfold run_layer.
  cbn [route_path route_method route_handler]. rewrite Ru, Hp, Rm, Hm.
  change (path_matches "/" "/") with true.
  change (handles_method "GET" "GET") with true. cbn [andb].
  apply run_handler_returns. now apply res_end_returns.
Qed.

End Routes.

(** X3: [GET /api/data] hands its "protected" payload, with status 200, to
    every request that carries no cache validator ([If-None-Match],
    [If-Modified-Since]) and gets past the body parser and the request log,
    whatever its other headers, its query string or its client address: the
    route checks no credential. *)
Theorem data_route_is_open rt req w :
  req_method req = "GET" ->
  pathname rt (req_originalUrl req) = "/api/data" ->
  conditional req = false ->
  body_accepted rt req ->
  accepts rt (access_record req) ->
  res_statusCode (response (serve rt req w)) = 200%Z
  /\ res_body (response (serve rt req w)) =
       Some (JsonText [("message", JStr "This is some protected data!")]).
Proof.
  intros Hm Hp Hc Hbody Hacc.
  destruct (reaches_routes_ready rt req w Hbody Hacc) as (x & E & Rx & Hx & _).
  rewrite E, (data_route_answers rt req x Hm Hp Rx Hx).
  unfold api_data, res_json. apply res_end_sends; [ exact Hx | ].
  now rewrite (same_request_conditional _ _ Rx).
Qed.

Lemma data_route_is_open_witness :
  let req := {| req_method := "GET"; req_originalUrl := "/api/data?id=7";
                req_ip := "203.0.113.9"; req_headers := [];
                req_raw := None; req_body := NoBody |} in
  req_method req = "GET"
  /\ pathname Sample.production (req_originalUrl req) = "/api/data"
  /\ conditional req = false
  /\ body_accepted Sample.production req
  /\ accepts Sample.production (access_record req)
  /\ res_statusCode (response (serve Sample.production req Sample.world0)) = 200%Z
  /\ res_body (response (serve Sample.production req Sample.world0)) =
       Some (JsonText [("message", JStr "This is some protected data!")]).
Proof.
  cbv zeta.
  split; [ reflexivity | ]. split; [ reflexivity | ]. split; [ reflexivity | ].
  split; [ intros raw Hraw; discriminate Hraw | ].
  split; [ intros h; reflexivity | ].
  apply (data_route_is_open Sample.production);
    [ reflexivity | reflexivity | reflexivity | intros raw Hraw; discriminate Hraw
    | intros h; reflexivity ].
Defined.

(** X4: [GET /] is answered with status 200 and the welcome text, and
    [GET /api], with or without a trailing slash, with status 200 and the
    greeting of the API router, for every request that carries no cache
    validator and gets past the body parser and the request log. *)
Theorem greetings rt req w :
  req_method req = "GET" ->
  conditional req = false ->
  body_accepted rt req ->
  accepts rt (access_record req) ->
  (pathname rt (req_originalUrl req) = "/" ->
   res_statusCode (response (serve rt req w)) = 200%Z
   /\ res_body (response (serve rt req w)) =
        Some (Text "Welcome to the Node.js application! Check /api for API endpoints, or /api/health for status."))
  /\ (pathname rt (req_originalUrl req) = "/api"
      \/ pathname rt (req_originalUrl req) = "/api/" ->
      res_statusCode (response (serve rt req w)) = 200%Z
      /\ res_body (response (serve rt req w)) =
           Some (Text "Hello from setup-a-ci Node.js app!")).
Proof.
  intros Hm Hc Hbody Hacc.
  destruct (reaches_routes_ready rt req w Hbody Hacc) as (x & E & Rx & Hx & _).
  assert (conditional (request x) = false) as Hcx
    by now rewrite (same_request_conditional _ _ Rx).
  split; intros Hp; rewrite E.
  - rewrite (root_route_answers rt req x Hm Hp Rx Hx).
    unfold root, res_send. now apply res_end_sends.
  - rewrite (api_root_route_answers rt req x Hm Hp Rx Hx).
    unfold api_root, res_send. now apply res_end_sends.
Qed.

Lemma greetings_witness :
  let req := Sample.get "/api?lang=en" in
  req_method req = "GET"
  /\ conditional req = false
  /\ body_accepted Sample.development req
  /\ accepts Sample.development (access_record req)
  /\ (pathname Sample.development (req_originalUrl req) = "/api"
      \/ pathname Sample.development (req_originalUrl req) = "/api/")
  /\ res_body (response (serve Sample.development req Sample.world0)) =
       Some (Text "Hello from setup-a-ci Node.js app!").
Proof.
  cbv zeta.
  assert (body_accepted Sample.development (Sample.get "/api?lang=en")) as Hb
    by (intros raw Hraw; discriminate Hraw).
  assert (accepts Sample.development (access_record (Sample.get "/api?lang=en"))) as Ha
    by (intros h; reflexivity).
  split; [ reflexivity | ]. split; [ reflexivity | ].
  split; [ exact Hb | ]. split; [ exact Ha | ].
  split; [ left; reflexivity | ].
  exact (proj2 (proj2 (greetings Sample.development (Sample.get "/api?lang=en")
                         Sample.world0 eq_refl eq_refl Hb Ha) (or_introl eq_refl))).
Defined.

(** ** What reaches the log *)





(** X7: serving a request only hands records to the logger: the log grows
    at its end and nothing else of the process changes, neither its clock,
    nor its connections, nor the exits that wait for the listener to close
    or for winston's handlers, nor its exit code; the request line is not
    altered either. *)
Theorem serving_only_appends_to_the_log rt req w :
  (exists l, log (world (serve rt req w)) = (log w ++ l)%list)
  /\ same_process w (world (serve rt req w))
  /\ same_request req (request (serve rt req w)).
Proof.
  destruct (serve_evolves rt req w) as (Hp & Hl & Hr & _).
  split; [ exact Hl | ]. split; [ exact Hp | exact Hr ].
Qed.

(** ** The error middleware at its edges *)

(** X8: on a request not yet answered, when the envelope goes out (the
    status of the error response is one that Node writes and that carries a
    body, as every 4xx and 5xx status is, and the response is not turned
    into a 304), the record that the error middleware logs agrees with the
    response it has just sent: its [status] is the status code of the response, and its
    [url] and [method] are those of the request. *)
Theorem logged_status_is_sent_status rt err x :
  res_writes (response x) = 0%nat ->
  goes_out rt (request x) (status_of err) (error_payload rt err) = true ->
  exists r,
    log (world (snd (error_handler rt err x))) = (log (world x) ++ [r])%list
    /\ attr "status" (meta r) =
         JsNumber (res_statusCode (response (snd (error_handler rt err x))))
    /\ attr "url" (meta r) = JsString (req_originalUrl (request x))
    /\ attr "method" (meta r) = JsString (req_method (request x)).
Proof.
  intros Hw Hg. exists (error_record err (request x)).
  assert (valid_status (status_of err) = true) as Hv.
  { unfold goes_out in Hg. apply andb_true_iff in Hg as [Hg _].
    now apply andb_true_iff in Hg as [Hv _]. }
  split; [ now apply error_handler_log | ].
  rewrite error_handler_response by assumption. repeat split.
Qed.

Lemma logged_status_is_sent_status_witness :
  let err := {| err_message := "teapot"; err_status := Some 418%Z;
                err_stack := Some "Error: teapot" |} in
  let x := Sample.exchange (Sample.get "/brew") in
  res_writes (response x) = 0%nat
  /\ goes_out Sample.development (request x) (status_of err)
       (error_payload Sample.development err) = true
  /\ exists r,
       log (world (snd (error_handler Sample.development err x))) = (log (world x) ++ [r])%list
       /\ attr "status" (meta r) =
            JsNumber (res_statusCode (response (snd (error_handler Sample.development err x))))
       /\ attr "url" (meta r) = JsString (req_originalUrl (request x))
       /\ attr "method" (meta r) = JsString (req_method (request x)).
Proof.
  cbv zeta. split; [ reflexivity | ]. split; [ reflexivity | ].
  apply (logged_status_is_sent_status Sample.development); reflexivity.
Defined.

(** X9: when the response has already gone out, the error middleware
    cannot answer: its [res.json] raises, the call of the logger after it is
    never reached, so the error is not logged, and what was sent stays as
    sent. *)
Theorem error_after_send_is_not_logged rt err x :
  res_writes (response x) <> 0%nat ->
  fst (error_handler rt err x) = Thrown ERR_HTTP_HEADERS_SENT
  /\ log (world (snd (error_handler rt err x))) = log (world x)
  /\ res_body (response (snd (error_handler rt err x))) = res_body (response x)
  /\ res_writes (response (snd (error_handler rt err x))) = res_writes (response x).
Proof.
  intros Hw. rewrite error_handler_steps, res_end_sent by exact Hw.
  repeat split.
Qed.

Lemma error_after_send_is_not_logged_witness :
  let err := {| err_message := "late"; err_status := None; err_stack := None |} in
  let x := serve Sample.development (Sample.get "/") Sample.world0 in
  res_writes (response x) <> 0%nat
  /\ fst (error_handler Sample.development err x) = Thrown ERR_HTTP_HEADERS_SENT
  /\ log (world (snd (error_handler Sample.development err x))) = log (world x).
Proof.
  cbv zeta.
  assert (res_writes (response (serve Sample.development (Sample.get "/") Sample.world0))
          <> 0%nat) as Hw by (vm_compute; discriminate).
  split; [ exact Hw | ].
  destruct (error_after_send_is_not_logged Sample.development
              {| err_message := "late"; err_status := None; err_stack := None |}
              _ Hw) as (H1 & H2 & _).
  split; [ exact H1 | exact H2 ].
Defined.

(** ** Methods *)

Lemma handles_get_only m :
  m <> "GET" -> m <> "HEAD" -> handles_method "GET" m = false.
Proof.
  intros Hg Hh. unfold handles_method.
  apply String.eqb_neq in Hh. rewrite Hh.
  assert (String.eqb "GET" m = false) as -> by (apply String.eqb_neq; congruence).
  reflexivity.
Qed.

(** X10: the routes of [app.js] answer reads only.  A request whose method
    is not [GET], [HEAD] or [OPTIONS] matches no route, whatever its path,
    and when it gets past the body parser and the logger it is answered
    with 404, also on the path of an existing route. *)
Theorem only_reads_are_routed rt req w :
  req_method req <> "GET" ->
  req_method req <> "HEAD" ->
  req_method req <> "OPTIONS" ->
  routed rt req = false
  /\ (body_accepted rt req ->
      accepts rt (access_record req) ->
      accepts rt (not_found_record req) ->
      res_statusCode (response (serve rt req w)) = 404%Z).
Proof.
  intros Hg Hh Ho.
  assert (routed rt req = false) as Hroute.
  { unfold routed, app. cbn [existsb layer_answers orb].
    pose proof (handles_get_only _ Hg Hh) as Hm.
    apply String.eqb_neq in Ho.
    unfold route_hits. cbn [route_method route_path]. rewrite Hm, andb_false_r.
    destruct (mounted_path _ _); [ | reflexivity ].
    unfold router_answers, apiRouter. cbn [existsb route_method route_path].
    now rewrite Hm, Ho, !andb_false_r. }
  split; [ exact Hroute | intros Hbody Hacc Hnf ].
  destruct (unrouted_exchange rt req w Hroute Hbody Hacc Hnf) as (x & Rx & Sx & ->).
  rewrite error_handler_response;
    [ reflexivity | cbn; now rewrite Sx | now apply error_status_goes_out ].
Qed.

Lemma only_reads_are_routed_witness :
  let req := {| req_method := "DELETE"; req_originalUrl := "/api/data";
                req_ip := "127.0.0.1"; req_headers := []; req_raw := None;
                req_body := NoBody |} in
  req_method req <> "GET" /\ req_method req <> "HEAD" /\ req_method req <> "OPTIONS"
  /\ routed Sample.development req = false
  /\ res_statusCode (response (serve Sample.development req Sample.world0)) = 404%Z.
Proof.
  cbv zeta.
  split; [ discriminate | ]. split; [ discriminate | ]. split; [ discriminate | ].
  match goal with |- routed _ ?r = false /\ _ =>
    destruct (only_reads_are_routed Sample.development r Sample.world0) as (H1 & H2);
      [ discriminate | discriminate | discriminate | ]
  end.
  split; [ exact H1 | ].
  apply H2; [ intros raw Hraw; discriminate Hraw | intros h; reflexivity
            | intros h; reflexivity ].
Defined.

(** ** Faults and open connections *)



(** ** A logger that fails on the access record *)

Lemma same_request_goes_out rt r r' code p :
  same_request r r' -> goes_out rt r' code p = goes_out rt r code p.
Proof.
  intros (Rm & _ & _ & Rh & _). unfold goes_out, req_fresh, conditional.
  now rewrite Rm, Rh.
Qed.



(** ** More on the log, the mode and the start *)

(** X13: every health check is logged twice at level [info]: a
    [GET /api/health] that gets past the body parser and the logger leaves
    the access record and then the record of the handler, and no other. *)
Theorem health_check_is_logged_twice rt req w :
  req_method req = "GET" ->
  pathname rt (req_originalUrl req) = "/api/health" ->
  body_accepted rt req ->
  accepts rt (access_record req) ->
  accepts rt health_record ->
  log (world (serve rt req w)) = (log w ++ [access_record req; health_record])%list.
Proof.
  intros Hm Hp Hbody Hacc Hh.
  destruct (reaches_routes rt req w Hbody Hacc) as (x & E & Rx & Sx & Wx).
  assert (unwritten x) as Hx by (unfold unwritten; now rewrite Sx).
  destruct (api_health_returns rt x Hx Hh) as (Hret & Hl).
  rewrite E, (health_route_answers rt req x Hm Hp Rx Hret), Hl, Wx.
  cbn [log logged]. now rewrite <- app_assoc.
Qed.

Lemma health_check_is_logged_twice_witness :
  let req := Sample.get "/api/health" in
  req_method req = "GET"
  /\ pathname Sample.development (req_originalUrl req) = "/api/health"
  /\ body_accepted Sample.development req
  /\ accepts Sample.development (access_record req)
  /\ accepts Sample.development health_record
  /\ log (world (serve Sample.development req Sample.world0)) =
       [access_record req; health_record].
Proof.
  cbv zeta.
  assert (body_accepted Sample.development (Sample.get "/api/health")) as Hb
    by (intros raw Hraw; discriminate Hraw).
  assert (forall r, accepts Sample.development r) as Ha by (intros r h; reflexivity).
  split; [ reflexivity | ]. split; [ reflexivity | ]. split; [ exact Hb | ].
  split; [ apply Ha | ]. split; [ apply Ha | ].
  exact (health_check_is_logged_twice Sample.development (Sample.get "/api/health")
           Sample.world0 eq_refl eq_refl Hb (Ha _) (Ha _)).
Defined.



(** X15: for an error with a 4xx or 5xx status, or with none, that reaches
    the error middleware on a request not yet answered, the environment
    mode changes nothing of the error response but its [stack]
    field: the error middleware sets the same status, sends the same
    [message] and logs the same record in every mode. *)
Theorem mode_changes_only_the_stack rt rt' err x :
  res_writes (response x) = 0%nat ->
  error_status (status_of err) = true ->
  res_statusCode (response (snd (error_handler rt err x))) =
    res_statusCode (response (snd (error_handler rt' err x)))
  /\ (exists o o',
        res_body (response (snd (error_handler rt err x))) = Some (JsonText o)
        /\ res_body (response (snd (error_handler rt' err x))) = Some (JsonText o')
        /\ field "message" o = field "message" o'
        /\ forall k, k <> "stack" -> field k o = field k o')
  /\ log (world (snd (error_handler rt err x))) =
       log (world (snd (error_handler rt' err x))).
Proof.
  intros Hw Hs.
  rewrite !error_handler_response, !error_handler_log;
    try assumption; try now apply error_status_valid.
  2, 3: now apply error_status_goes_out.
  split; [ reflexivity | ]. split; [ | reflexivity ].
  unfold error_payload. do 2 eexists. split; [ reflexivity | ]. split; [ reflexivity | ].
  split.
  - destruct (is_production rt), (is_production rt'), (err_stack err); reflexivity.
  - intros k Hk. apply String.eqb_neq in Hk.
    destruct (is_production rt), (is_production rt'), (err_stack err); cbn;
      try reflexivity; now rewrite Hk.
Qed.

Lemma mode_changes_only_the_stack_witness :
  let err := {| err_message := "boom"; err_status := Some 503%Z;
                err_stack := Some "Error: boom" |} in
  let x := Sample.exchange (Sample.get "/") in
  res_writes (response x) = 0%nat
  /\ error_status (status_of err) = true
  /\ res_statusCode (response (snd (error_handler Sample.production err x))) =
       res_statusCode (response (snd (error_handler Sample.development err x))).
Proof.
  cbv zeta. split; [ reflexivity | ]. split; [ reflexivity | ].
  apply (mode_changes_only_the_stack Sample.production Sample.development); reflexivity.
Defined.

(** ** An error whose status Node does not write *)

Lemma invalid_is_no_error_status code :
  valid_status code = false -> error_status code = false.
Proof.
  intros Hv. destruct (error_status code) eqn:He; [ | reflexivity ].
  apply error_status_valid in He. congruence.
Qed.


